(** * The Kahn scheduler of [kahn.py]: a shallow embedding

    The class [Kahn] keeps, for a graph of [n] nodes, one numpy array [x]
    of shape (n, 3).  Row [i] holds, for node [i],
      - column 0: the number of constraints still to be satisfied,
      - column 1: the label (-1 while none has been given),
      - column 2: the lifecycle (-1 blocked, 0 ready, 1 done).
    [initialize_x] builds the array, [iter_Kahn] performs one step on it in
    place, and [run] drives the steps while recording copies of [x].

    Conventions of the embedding.
      - The entries of [x] and of the adjacency matrix are float64 in
        numpy; the program only ever stores integers in them, so they are
        integers here, and the sum [amax + 1] is rounded as float64 rounds
        it.  Priorities are only compared; they are rationals.
      - Nodes are the integers [0 .. n-1], in that order, as the source
        assumes when it indexes [graph.nodes] with matrix indices, and
        every node carries a ['priority']; an index that is not a node is
        a [KeyError] where the source looks its priority up.
      - Python exceptions are values of [exn]; an outcome carries the
        contents of the mutable memory at the moment the call ends, whether
        it returned or raised.
      - The [while] loop of [run] is driven by a fuel counter. *)

From Stdlib Require Import ZArith QArith Lia Sorted.
From stdpp Require Import base list.

Close Scope Q_scope.
Open Scope Z_scope.

(** ** Python values, exceptions and outcomes *)

Inductive exn : Set :=
  | AssertionError
  | TypeError
  | IndexError
  | KeyError
  | ValueError.

(** What an expression can evaluate to where the source uses the value of
    [list.reverse()]. *)
Inductive pyobj : Set :=
  | PyNone
  | PyList (l : list nat).

(** Truth value of an object, as [not] and [if] see it. *)
Definition truth (v : pyobj) : bool :=
  match v with
  | PyNone => false
  | PyList [] => false
  | PyList (_ :: _) => true
  end.

(** [l.reverse()] reverses [l] in place and evaluates to [None]: the first
    component is the new contents of [l], the second the value of the
    call. *)
Definition list_reverse (l : list nat) : list nat * pyobj := (rev l, PyNone).

Inductive result (A : Type) : Type :=
  | Ok (a : A)
  | Err (e : exn).
Arguments Ok {A} a.
Arguments Err {A} e.

(** An outcome over a memory of type [St]. *)
Inductive outcome (St A : Type) : Type :=
  | Returned (a : A) (s : St)
  | Raised (e : exn) (s : St)
  | OutOfFuel (s : St).
Arguments Returned {St A} a s.
Arguments Raised {St A} e s.
Arguments OutOfFuel {St A} s.

Definition state_of {St A : Type} (o : outcome St A) : St :=
  match o with
  | Returned _ s => s
  | Raised _ s => s
  | OutOfFuel s => s
  end.

Definition M (St A : Type) : Type := St -> outcome St A.

#[global] Instance M_ret {St : Type} : MRet (M St) :=
  fun A a s => Returned a s.

#[global] Instance M_bind {St : Type} : MBind (M St) :=
  fun A B f m s =>
    match m s with
    | Returned a s' => f a s'
    | Raised e s' => Raised e s'
    | OutOfFuel s' => OutOfFuel s'
    end.

Section Effects.
Context {St : Type}.

Definition get : M St St := fun s => Returned s s.
Definition modify (f : St -> St) : M St unit := fun s => Returned tt (f s).
Definition raise {A : Type} (e : exn) : M St A := fun s => Raised e s.
Definition out_of_fuel {A : Type} : M St A := fun s => OutOfFuel s.

Definition lift {A : Type} (r : result A) : M St A :=
  match r with
  | Ok a => mret a
  | Err e => raise e
  end.

(** The [assert] statement. *)
Definition assert (b : bool) : M St unit :=
  if b then mret tt else raise AssertionError.

Definition when (b : bool) (m : M St unit) : M St unit :=
  if b then m else mret tt.
End Effects.

(** ** The graph and its adjacency matrix *)

Record Graph : Type := {
  number_of_nodes : nat;
  (** entry (i, j) of [nx.to_numpy_matrix(graph)]: the edge from i to j *)
  weight : nat -> nat -> Z;
  (** [graph.nodes[id]['priority']] *)
  priority : nat -> Q;
}.

Abbreviation matrix := (list (list Z)).

Definition to_numpy_matrix (g : Graph) : matrix :=
  let ids := seq 0 (number_of_nodes g) in
  map (fun i => map (fun j => weight g i j) ids) ids.

(** ** The state vector *)

Record entry : Type := Entry {
  remaining : Z;
  label : Z;
  lifecycle : Z;
}.

(** A state vector is an array of shape (n, 3), given by its rows; the
    empty list is the array of shape (0, 3).  The one-dimensional array
    that numpy builds from an empty list is not a state vector:
    [initialize_x] fails on it before it can be passed on. *)
Abbreviation state_vector := (list entry).

(** The three columns [x[:,0]], [x[:,1]], [x[:,2]]. *)
Definition col0 (x : state_vector) : list Z := map remaining x.
Definition col1 (x : state_vector) : list Z := map label x.
Definition col2 (x : state_vector) : list Z := map lifecycle x.

Definition set_remaining (v : Z) (e : entry) : entry :=
  Entry v (label e) (lifecycle e).
Definition set_label (v : Z) (e : entry) : entry :=
  Entry (remaining e) v (lifecycle e).
Definition set_lifecycle (v : Z) (e : entry) : entry :=
  Entry (remaining e) (label e) v.

(** ** The numpy and builtin functions the program calls *)

Definition np_sum (l : list Z) : Z := foldr Z.add 0 l.

Fixpoint extremum (pick : Z -> Z -> Z) (a : Z) (l : list Z) : Z :=
  match l with
  | [] => a
  | b :: l' => extremum pick (pick a b) l'
  end.

(** The float64 nearest to an integer, ties going to the even
    significand.  Integers below 2^53 in magnitude are floats; above, the
    floats are the multiples of a power of 2. *)
Definition float64_of_Z (z : Z) : Z :=
  let m := Z.abs z in
  if m <? 2 ^ 53 then z else
  let e := Z.log2 m - 52 in
  let q := m / 2 ^ e in
  let r := m mod 2 ^ e in
  let half := 2 ^ (e - 1) in
  let q' :=
    if r <? half then q
    else if half <? r then q + 1
    else if Z.even q then q else q + 1 in
  Z.sgn z * (q' * 2 ^ e).

(** [np.amax] and [np.amin]; both refuse an empty array. *)
Definition np_amax (l : list Z) : result Z :=
  match l with
  | [] => Err ValueError
  | a :: l' => Ok (extremum Z.max a l')
  end.

Definition np_amin (l : list Z) : result Z :=
  match l with
  | [] => Err ValueError
  | a :: l' => Ok (extremum Z.min a l')
  end.

(** [np.argwhere] on a one-dimensional condition: the indices that satisfy
    it, in increasing order. *)
Fixpoint argwhere_from {A : Type} (p : A -> bool) (i : nat) (l : list A)
  : list nat :=
  match l with
  | [] => []
  | a :: l' =>
      if p a then i :: argwhere_from p (S i) l'
      else argwhere_from p (S i) l'
  end.

Definition argwhere {A : Type} (p : A -> bool) (l : list A) : list nat :=
  argwhere_from p 0 l.

(** A float that is either one of the integers of the array or
    [float('inf')]. *)
Inductive ext : Set :=
  | Fin (z : Z)
  | Inf.

Definition ext_ltb (a b : ext) : bool :=
  match a, b with
  | Fin u, Fin v => u <? v
  | Fin _, Inf => true
  | Inf, _ => false
  end.

(** [np.argmin]: the first index of the least value. *)
Fixpoint argmin_from (best_i : nat) (best : ext) (i : nat) (l : list ext)
  : nat :=
  match l with
  | [] => best_i
  | a :: l' =>
      if ext_ltb a best then argmin_from i a (S i) l'
      else argmin_from best_i best (S i) l'
  end.

Definition np_argmin (l : list ext) : result nat :=
  match l with
  | [] => Err ValueError
  | a :: l' => Ok (argmin_from 0 a 1 l')
  end.

(** [sorted(l, key=...)]: a stable sort by ascending key.  The stable
    sorted arrangement of a list is unique, so insertion from the right
    computes the same list as Python's sort. *)
Fixpoint insert_by (key : nat -> Q) (a : nat) (l : list nat) : list nat :=
  match l with
  | [] => [a]
  | b :: l' =>
      if Qle_bool (key a) (key b) then a :: b :: l'
      else b :: insert_by key a l'
  end.

Definition sorted (key : nat -> Q) (l : list nat) : list nat :=
  foldr (insert_by key) [] l.

(** [sorted(l, key=lambda id: graph.nodes[id]['priority'])]: the key of
    every element is looked up before anything is sorted, and an element
    that is not a node of the graph is a [KeyError]. *)
Definition sorted_by_priority (g : Graph) (l : list nat)
  : result (list nat) :=
  if forallb (fun id => Nat.ltb id (number_of_nodes g)) l
  then Ok (sorted (priority g) l)
  else Err KeyError.

(** Iterating over an object in a [for] statement. *)
Definition iterate (v : pyobj) : result (list nat) :=
  match v with
  | PyNone => Err TypeError
  | PyList l => Ok l
  end.

(** ** [Kahn.initialize_x] *)

Definition get_degree (E : matrix) (ind : nat) : Z :=
  np_sum (map (fun r => nth ind r 0) E).

(** The loop [for i in free_nodes] that gives the labels. *)
Fixpoint label_free_nodes (free_nodes : list nat) (label : Z)
  (x : state_vector) : result state_vector :=
  match free_nodes with
  | [] => Ok x
  | i :: rest =>
      match x !! i with
      | None => Err IndexError
      | Some _ =>
          let x := alter (set_label label) i x in
          let x := alter (set_lifecycle 0) i x in
          label_free_nodes rest (label + 1) x
      end
  end.

(** The array of line 60: the degree of each node, no label, blocked. *)
Definition degree_array (E : matrix) (nb_nodes : nat) : state_vector :=
  map (fun i => Entry (get_degree E i) (-1) (-1)) (seq 0 nb_nodes).

Definition initialize_x (g : Graph) : result state_vector :=
  let E := to_numpy_matrix g in
  let nb_nodes := number_of_nodes g in
  let x := degree_array E nb_nodes in
  let label := 1 in
  (* with no node the array has one dimension and [x[:,0]] is refused *)
  if Nat.eqb nb_nodes 0 then Err IndexError else
  (* the indices found in [x] are nodes of the graph: their keys exist *)
  let free_idx := argwhere (Z.eqb 0) (col0 x) in
  let free_nodes := sorted (priority g) free_idx in
  let '(free_nodes, reversed) := list_reverse free_nodes in
  if negb (truth reversed) then
    (* print('No free nodes') *)
    Ok x
  else
    label_free_nodes free_nodes label x.

(** ** [Kahn.iter_Kahn] *)

(** [np.where(x[:,2] == 0, 1, 0)] and [np.where(x[:,2] == 0, x[:,1], inf)]. *)
Definition ready_flags (x : state_vector) : list Z :=
  map (fun e => if lifecycle e =? 0 then 1 else 0) x.

Definition ready_labels (x : state_vector) : list ext :=
  map (fun e => if lifecycle e =? 0 then Fin (label e) else Inf) x.

(** Lines 96 to 108: the next label, the assertion, the stuck case and the
    node that is set as seen.  The value is the pair of [next_label] and
    [node_to_free]. *)
Definition iter_Kahn_select : M state_vector (Z * nat) :=
  x ← get;
  top ← lift (np_amax (col1 x));
  let next_label := float64_of_Z (top + 1) in
  assert (1 <=? next_label);;
  when (np_sum (ready_flags x) =? 0) (modify (map (set_lifecycle 1)));;
  x ← get;
  node_to_free ← lift (np_argmin (ready_labels x));
  modify (alter (set_lifecycle 1) node_to_free);;
  mret (next_label, node_to_free).

(** The body of [for ind in ...], lines 115 to 122, run over the nodes
    [inds] in turn. *)
Fixpoint free_neighbours (inds : list nat) (next_label : Z)
  : M state_vector unit :=
  match inds with
  | [] => mret tt
  | ind :: rest =>
      x ← get;
      match x !! ind with
      | None => raise IndexError
      | Some e =>
          modify (alter (set_remaining (remaining e - 1)) ind);;
          if remaining e - 1 =? 0 then
            modify (alter (set_label next_label) ind);;
            modify (alter (set_lifecycle 0) ind);;
            free_neighbours rest (next_label + 1)
          else
            free_neighbours rest next_label
      end
  end.

(** Lines 110 to 122. *)
Definition iter_Kahn_propagate (g : Graph) (E : matrix)
  (next_label : Z) (node_to_free : nat) : M state_vector unit :=
  match E !! node_to_free with
  | None => raise IndexError
  | Some r =>
      let neigh := argwhere (Z.eqb 1) r in
      neigh ← lift (sorted_by_priority g neigh);
      let '(neigh, reversed) := list_reverse neigh in
      inds ← lift (iterate reversed);
      free_neighbours inds next_label
  end.

(** The array [x] is modified in place and is also the value returned. *)
Definition iter_Kahn (g : Graph) (E : matrix) : M state_vector unit :=
  '(next_label, node_to_free) ← iter_Kahn_select;
  iter_Kahn_propagate g E next_label node_to_free.

(** ** [Kahn.run] and the arrays it keeps

    [run] holds the live array [x] and the copies it appends to [history].
    The arrays live in a store and are named by their position in it;
    [x.copy()] allocates a new array, [iter_Kahn] writes into the one it is
    given. *)

Abbreviation loc := nat (only parsing).
Abbreviation store := (list (list entry)).

Definition alloc (a : state_vector) : M store loc :=
  fun h => Returned (length h) (h ++ [a]).

Definition load (l : loc) : M store state_vector :=
  fun h =>
    match h !! l with
    | Some a => Returned a h
    | None => Raised IndexError h
    end.

(** Run a computation on the array at [l], writing back what it leaves.
    [run] only uses names it has allocated, so the first case does not
    occur there. *)
Definition on_array {A : Type} (l : loc) (m : M state_vector A) : M store A :=
  fun h =>
    match h !! l with
    | None => Raised IndexError h
    | Some a =>
        match m a with
        | Returned v a' => Returned v (<[l := a']> h)
        | Raised e a' => Raised e (<[l := a']> h)
        | OutOfFuel a' => OutOfFuel (<[l := a']> h)
        end
    end.

Definition np_copy (l : loc) : M store loc :=
  a ← load l;
  alloc a.

Fixpoint load_all (ls : list loc) : M store (list state_vector) :=
  match ls with
  | [] => mret []
  | l :: rest =>
      a ← load l;
      others ← load_all rest;
      mret (a :: others)
  end.

(** [decode_last_state]: the label column. *)
Definition decode_last_state (x : state_vector) : list Z := col1 x.

(** The [while] loop of [run]; [x] names the live array, [history] the
    copies appended so far. *)
Fixpoint run_loop (g : Graph) (E : matrix) (fuel : nat) (x : loc)
  (history : list loc) : M store (list loc) :=
  match fuel with
  | O => out_of_fuel
  | S fuel' =>
      a ← load x;
      least ← lift (np_amin (col2 a));
      if least <? 1 then
        on_array x (iter_Kahn g E);;
        snapshot ← np_copy x;
        run_loop g E fuel' x (history ++ [snapshot])
      else
        mret history
  end.

Definition run (fuel : nat) (g : Graph)
  : M store (list state_vector * list Z) :=
  let E := to_numpy_matrix g in
  x0 ← lift (initialize_x g);
  x ← alloc x0;
  snapshot ← np_copy x;
  history ← run_loop g E fuel x [snapshot];
  states ← load_all history;
  a ← load x;
  mret (states, decode_last_state a).

(** ** Graphs of the scenarios *)

Definition edges_graph (n : nat) (edges : list (nat * nat))
  (prio : nat -> Q) : Graph :=
  {| number_of_nodes := n;
     weight := fun i j =>
       if existsb (fun e => Nat.eqb (fst e) i && Nat.eqb (snd e) j) edges
       then 1 else 0;
     priority := prio |}.

(** Scenario A, the chain 0 -> 1 -> 2 with equal priorities. *)
Definition chain3 : Graph :=
  edges_graph 3 [(0, 1); (1, 2)]%nat (fun _ => inject_Z 0).

(** Scenario B, the diamond with priority(1) = 0 and priority(2) = 1. *)
Definition diamond : Graph :=
  edges_graph 4 [(0, 1); (0, 2); (1, 3); (2, 3)]%nat
    (fun i => match i with 2%nat => inject_Z 1 | _ => inject_Z 0 end).

(** Scenario C, the cycle 0 -> 1 -> 0. *)
Definition cycle2 : Graph :=
  edges_graph 2 [(0, 1); (1, 0)]%nat (fun _ => inject_Z 0).

(** Scenario D, one node and no edge. *)
Definition isolated1 : Graph :=
  edges_graph 1 [] (fun _ => inject_Z 0).

(** ** [training.py]: the preparation of one history

    Lines 67 to 82 of the script turn the history [states] of one graph,
    an array with one entry per step, into an array of [max_steps]
    entries and a vector of termination flags.  The entries themselves
    are not inspected, so their type is left open. *)

#[global] Instance result_ret : MRet result := fun A a => Ok a.

#[global] Instance result_bind : MBind result :=
  fun A B f r =>
    match r with
    | Ok a => f a
    | Err e => Err e
    end.

(** [np.zeros(n)] *)
Definition np_zeros (n : nat) : list Z := replicate n 0.

(** [a[-1] = v], refused on an empty array. *)
Definition set_last {A : Type} (v : A) (a : list A) : result (list A) :=
  match a with
  | [] => Err IndexError
  | _ :: _ => Ok (<[pred (length a) := v]> a)
  end.

(** [np.pad(a, pad_idx, 'edge')] with [pad_idx[0] = (0, k)] and no padding
    on the other axes: [k] copies of the last entry are appended.  An
    empty axis cannot be extended in this mode. *)
Definition np_pad_edge {A : Type} (a : list A) (k : nat) : result (list A) :=
  match last a with
  | Some e => Ok (a ++ replicate k e)
  | None => if Nat.eqb k 0 then Ok a else Err ValueError
  end.

(** [np.pad(a, (0, k), 'constant', constant_values=(v))] *)
Definition np_pad_constant (a : list Z) (k : nat) (v : Z) : list Z :=
  a ++ replicate k v.

Definition prepare_history {A : Type} (max_steps : nat) (states : list A)
  : result (list A * list Z) :=
  let termination := np_zeros (length states) in
  termination ← set_last 1 termination;
  if negb (length states <=? max_steps)%nat then Err AssertionError else
  if (length states <? max_steps)%nat then
    padded ← np_pad_edge states (max_steps - length states);
    mret (padded,
          np_pad_constant termination (max_steps - length termination) 1)
  else
    mret (states, termination).

(** ** [training_2.py]: the targets of one history

    Lines 148 to 150: for each step after the first, the positions at
    which the state differs from the one before, all stacked in one
    vector.  [states] has one row per step, the rows being vectors of the
    same length. *)

(** [np.where(a)[0]] on a vector: the positions of its non-zero entries.
    The rows are read as numpy reads them, the tensors being on the CPU. *)
Definition np_where (a : list Z) : list nat :=
  argwhere (fun v => negb (v =? 0)) a.

(** [np.hstack], which refuses an empty sequence of arrays. *)
Definition np_hstack (arrays : list (list nat)) : result (list nat) :=
  match arrays with
  | [] => Err ValueError
  | _ :: _ => Ok (concat arrays)
  end.

Definition transition_targets (states : list (list Z)) : result (list nat) :=
  let target := [] in
  let target :=
    target ++
    map (fun i => np_where (zip_with Z.sub (nth i states [])
                                           (nth (i - 1) states [])))
        (seq 1 (length states - 1)) in
  np_hstack target.

(** ** Notions used in the statements *)

(** The array after the test of the stuck case, line 102. *)
Definition after_stuck_test (x : state_vector) : state_vector :=
  if np_sum (ready_flags x) =? 0 then map (set_lifecycle 1) x else x.

(** [k] is a ready node of [x] with the least label, and the first such. *)
Definition least_ready (x : state_vector) (k : nat) : Prop :=
  exists ek,
    x !! k = Some ek /\ lifecycle ek = 0 /\
    forall j ej, x !! j = Some ej -> lifecycle ej = 0 ->
                 label ek <= label ej /\ (label ej = label ek -> (k <= j)%nat).

(** What a step may do to an entry: keep the count and the label, and
    either keep the lifecycle or set it to done. *)
Definition step_allowed (e e' : entry) : Prop :=
  remaining e' = remaining e /\ label e' = label e /\
  (lifecycle e' = lifecycle e \/ lifecycle e' = 1).

(** The nodes of [inds] whose count in [x] is 1: those that a decrement
    brings to 0. *)
Definition reach_zero (x : state_vector) (inds : list nat) : list nat :=
  List.filter
    (fun i => match x !! i with
              | Some e => remaining e - 1 =? 0
              | None => false
              end) inds.

(** The order in which a stable sort by ascending priority leaves nodes
    that were given in ascending order: by priority, and by node among
    equal priorities. *)
Definition priority_order (key : nat -> Q) (a b : nat) : Prop :=
  Qlt (key a) (key b) \/ (Qeq (key a) (key b) /\ (a < b)%nat).

(** * Properties *)

(** ** The monad *)

Ltac msimpl :=
  repeat (unfold mbind, M_bind, mret, M_ret, get, modify, raise, lift,
            assert, when, out_of_fuel in *; cbn beta iota in *).

(** ** The order on [ext] *)

Ltac ext_order :=
  repeat match goal with a : ext |- _ => destruct a end;
  cbn [ext_ltb] in *;
  repeat match goal with
    | H : (_ <? _) = true |- _ => apply Z.ltb_lt in H
    | H : (_ <? _) = false |- _ => apply Z.ltb_ge in H
    end;
  try discriminate;
  try reflexivity;
  try (apply Z.ltb_lt; lia);
  try (apply Z.ltb_ge; lia).

Lemma ext_ltb_irrefl (a : ext) : ext_ltb a a = false.
Proof. ext_order. Qed.

Lemma ext_ltb_trans (a b c : ext) :
  ext_ltb a b = true -> ext_ltb b c = true -> ext_ltb a c = true.
Proof. intros; ext_order. Qed.

Lemma ext_ltb_asym (a b : ext) : ext_ltb a b = true -> ext_ltb b a = false.
Proof. intros; ext_order. Qed.

Lemma ext_ltb_below (m a b : ext) :
  ext_ltb m b = true -> ext_ltb a b = false -> ext_ltb m a = true.
Proof. intros; ext_order. Qed.

Lemma ext_ltb_not_below (m a b : ext) :
  ext_ltb m b = true -> ext_ltb a b = false -> ext_ltb a m = false.
Proof. intros; ext_order. Qed.

(** ** [np.argmin] returns the first index of a least value *)

Lemma argmin_from_spec (l : list ext) :
  forall (bi : nat) (b : ext) (i : nat),
    (argmin_from bi b i l = bi /\
     (forall j a, l !! j = Some a -> ext_ltb a b = false))
    \/
    (exists j m,
        argmin_from bi b i l = (i + j)%nat /\ l !! j = Some m /\
        ext_ltb m b = true /\
        (forall j' a, l !! j' = Some a -> ext_ltb a m = false) /\
        (forall j' a, (j' < j)%nat -> l !! j' = Some a -> ext_ltb m a = true)).
Proof.
  induction l as [|a l IH]; intros bi b i; cbn [argmin_from].
  - left. split; [reflexivity|]. intros j a H. discriminate H.
  - destruct (ext_ltb a b) eqn:Hab.
    + right. destruct (IH i a (S i)) as [[Hk Hall] | (j & m & Hk & Hj & Hm & Hall & Hfirst)].
      * exists 0%nat, a. rewrite Hk. repeat split.
        -- lia.
        -- assumption.
        -- intros [|j'] a' H; cbn in H.
           ++ injection H as <-. apply ext_ltb_irrefl.
           ++ eauto.
        -- intros j' a' Hlt. lia.
      * exists (S j), m. rewrite Hk. repeat split.
        -- lia.
        -- assumption.
        -- eapply ext_ltb_trans; eassumption.
        -- intros [|j'] a' H; cbn in H.
           ++ injection H as <-. apply ext_ltb_asym; assumption.
           ++ eauto.
        -- intros [|j'] a' Hlt H; cbn in H.
           ++ injection H as <-. assumption.
           ++ apply (Hfirst j'); [lia | assumption].
    + destruct (IH bi b (S i)) as [[Hk Hall] | (j & m & Hk & Hj & Hm & Hall & Hfirst)].
      * left. split; [assumption|].
        intros [|j'] a' H; cbn in H.
        -- injection H as <-. assumption.
        -- eauto.
      * right. exists (S j), m. rewrite Hk. repeat split.
        -- lia.
        -- assumption.
        -- assumption.
        -- intros [|j'] a' H; cbn in H.
           ++ injection H as <-. eapply ext_ltb_not_below; eassumption.
           ++ eauto.
        -- intros [|j'] a' Hlt H; cbn in H.
           ++ injection H as <-. eapply ext_ltb_below; eassumption.
           ++ apply (Hfirst j'); [lia | assumption].
Qed.

Lemma np_argmin_spec (l : list ext) :
  l <> [] ->
  exists k m,
    np_argmin l = Ok k /\ l !! k = Some m /\
    (forall j a, l !! j = Some a -> ext_ltb a m = false) /\
    (forall j a, (j < k)%nat -> l !! j = Some a -> ext_ltb m a = true).
Proof.
  destruct l as [|a l]; [congruence|]. intros _. cbn [np_argmin].
  destruct (argmin_from_spec l 0 a 1)
    as [[Hk Hall] | (j & m & Hk & Hj & Hm & Hall & Hfirst)].
  - exists 0%nat, a. rewrite Hk. repeat split.
    + intros [|j] a' H; cbn in H.
      * injection H as <-. apply ext_ltb_irrefl.
      * eauto.
    + intros j a' Hlt. lia.
  - exists (S j), m. rewrite Hk. repeat split.
    + assumption.
    + intros [|j'] a' H; cbn in H.
      * injection H as <-. apply ext_ltb_asym; assumption.
      * eauto.
    + intros [|j'] a' Hlt H; cbn in H.
      * injection H as <-. assumption.
      * apply (Hfirst j'); [lia | assumption].
Qed.

(** ** The assertion on [next_label] *)

Lemma float64_of_Z_pos (z : Z) : 1 <= z -> 1 <= float64_of_Z z.
Proof.
  intros Hz. unfold float64_of_Z.
  destruct (Z.abs z <? 2 ^ 53) eqn:Hsmall; [exact Hz|].
  apply Z.ltb_ge in Hsmall. rewrite Z.abs_eq in * by lia.
  rewrite Z.sgn_pos by lia.
  assert (Hlog : 53 <= Z.log2 z).
  { rewrite <- (Z.log2_pow2 53) by lia. apply Z.log2_le_mono. exact Hsmall. }
  set (e := Z.log2 z - 52).
  assert (He : 0 < 2 ^ e) by (apply Z.pow_pos_nonneg; lia).
  assert (Hq : 1 <= z / 2 ^ e).
  { apply Z.div_le_lower_bound; [exact He|]. rewrite Z.mul_1_r.
    transitivity (2 ^ Z.log2 z).
    - apply Z.pow_le_mono_r; lia.
    - apply Z.log2_spec. lia. }
  destruct (z mod 2 ^ e <? 2 ^ (e - 1)); [nia|].
  destruct (2 ^ (e - 1) <? z mod 2 ^ e); [nia|].
  destruct (Z.even (z / 2 ^ e)); nia.
Qed.

Lemma float64_of_Z_nonpos (z : Z) : z <= 0 -> float64_of_Z z <= 0.
Proof.
  intros Hz. unfold float64_of_Z.
  destruct (Z.abs z <? 2 ^ 53) eqn:Hsmall; [exact Hz|].
  apply Z.ltb_ge in Hsmall.
  assert (Hneg : z < 0) by lia.
  rewrite Z.sgn_neg by exact Hneg.
  set (m := Z.abs z) in *. set (e := Z.log2 m - 52).
  assert (He : 0 < 2 ^ e).
  { apply Z.pow_pos_nonneg; [lia|]. unfold e.
    assert (53 <= Z.log2 m); [|lia].
    rewrite <- (Z.log2_pow2 53) by lia. apply Z.log2_le_mono. exact Hsmall. }
  assert (Hq : 0 <= m / 2 ^ e) by (apply Z.div_pos; lia).
  destruct (m mod 2 ^ e <? 2 ^ (e - 1)); [nia|].
  destruct (2 ^ (e - 1) <? m mod 2 ^ e); [nia|].
  destruct (Z.even (m / 2 ^ e)); nia.
Qed.

(** The assertion [next_label >= 1] passes exactly when the greatest
    label is 0 or more. *)
Lemma next_label_passes (top : Z) :
  0 <= top -> (1 <=? float64_of_Z (top + 1)) = true.
Proof. intros H. apply Z.leb_le, float64_of_Z_pos. lia. Qed.

Lemma next_label_fails (top : Z) :
  top < 0 -> (1 <=? float64_of_Z (top + 1)) = false.
Proof.
  intros H. apply Z.leb_gt.
  pose proof (float64_of_Z_nonpos (top + 1)). lia.
Qed.

Lemma next_label_passes_inv (top : Z) :
  1 <= float64_of_Z (top + 1) -> 0 <= top.
Proof.
  intros H. destruct (Z_lt_le_dec top 0) as [Hneg|Hpos]; [|exact Hpos].
  pose proof (float64_of_Z_nonpos (top + 1)). lia.
Qed.

(** ** [np.amax], [np.amin] and [np.sum] *)

Lemma lookup_map {A B : Type} (f : A -> B) (l : list A) (i : nat) :
  map f l !! i = f <$> l !! i.
Proof.
  revert i. induction l as [|a l IH]; intros [|i]; cbn; auto.
Qed.

Lemma extremum_max_ge (l : list Z) :
  forall a, a <= extremum Z.max a l /\
            (forall j v, l !! j = Some v -> v <= extremum Z.max a l).
Proof.
  induction l as [|b l IH]; intros a; cbn [extremum].
  - split; [lia|]. intros j v H. discriminate H.
  - destruct (IH (Z.max a b)) as [Ha Hl]. split; [lia|].
    intros [|j] v H; cbn in H.
    + injection H as <-. lia.
    + eauto.
Qed.

Lemma np_amax_ge (l : list Z) (j : nat) (v : Z) :
  l !! j = Some v -> exists top, np_amax l = Ok top /\ v <= top.
Proof.
  destruct l as [|a l]; [discriminate|]. intros H. cbn [np_amax].
  eexists; split; [reflexivity|].
  destruct (extremum_max_ge l a) as [Ha Hl].
  destruct j as [|j]; cbn in H.
  - injection H as <-. assumption.
  - eauto.
Qed.

Lemma extremum_const (pick : Z -> Z -> Z) (v : Z) (l : list Z) :
  pick v v = v -> Forall (eq v) l -> extremum pick v l = v.
Proof.
  intros Hp. induction 1 as [|b l <- _ IH]; cbn [extremum].
  - reflexivity.
  - rewrite Hp. assumption.
Qed.

Lemma extremum_min_attained (l : list Z) :
  forall a, extremum Z.min a l = a \/
            exists j, l !! j = Some (extremum Z.min a l).
Proof.
  induction l as [|b l IH]; intros a; cbn [extremum]; [left; reflexivity|].
  destruct (IH (Z.min a b)) as [Heq | (j & Hj)].
  - rewrite Heq. destruct (Z.min_spec a b) as [[_ ->] | [_ ->]].
    + left; reflexivity.
    + right. exists 0%nat. reflexivity.
  - right. exists (S j). exact Hj.
Qed.

(** The least lifecycle found by the test of the loop belongs to a node. *)
Lemma np_amin_witness (x : state_vector) (least : Z) :
  np_amin (col2 x) = Ok least ->
  exists i e, x !! i = Some e /\ lifecycle e = least.
Proof.
  destruct x as [|e x]; [discriminate|]. cbn [col2 map np_amin].
  intros H. injection H as <-.
  destruct (extremum_min_attained (map lifecycle x) (lifecycle e))
    as [Heq | (j & Hj)].
  - exists 0%nat, e. split; [reflexivity | symmetry; assumption].
  - rewrite lookup_map in Hj.
    destruct (x !! j) as [ej|] eqn:Hej; [|discriminate Hj].
    cbn in Hj. injection Hj as Hj.
    exists (S j), ej. split; assumption.
Qed.

Lemma np_sum_ready_flags_nonneg (x : state_vector) :
  0 <= np_sum (ready_flags x).
Proof.
  induction x as [|e x IH]; cbn; [lia|].
  fold (ready_flags x). fold (np_sum (ready_flags x)).
  destruct (lifecycle e =? 0); lia.
Qed.

Lemma np_sum_ready_flags_none (x : state_vector) :
  Forall (fun e => lifecycle e <> 0) x -> np_sum (ready_flags x) = 0.
Proof.
  induction 1 as [|e x He _ IH]; cbn; [reflexivity|].
  fold (ready_flags x). fold (np_sum (ready_flags x)).
  apply Z.eqb_neq in He. rewrite He, IH. reflexivity.
Qed.

Lemma np_sum_ready_flags_some (x : state_vector) (i : nat) (e : entry) :
  x !! i = Some e -> lifecycle e = 0 -> 0 < np_sum (ready_flags x).
Proof.
  revert i. induction x as [|e' x IH]; intros i H He; [discriminate|].
  cbn. fold (ready_flags x). fold (np_sum (ready_flags x)).
  pose proof (np_sum_ready_flags_nonneg x).
  destruct i as [|i]; cbn in H.
  - injection H as ->. rewrite He. cbn. lia.
  - specialize (IH i H He). destruct (lifecycle e' =? 0); lia.
Qed.

(** ** The two halves of [iter_Kahn] *)

Lemma iter_Kahn_select_eq (x : state_vector) :
  iter_Kahn_select x =
  match np_amax (col1 x) with
  | Err e => Raised e x
  | Ok top =>
      if 1 <=? float64_of_Z (top + 1) then
        match np_argmin (ready_labels (after_stuck_test x)) with
        | Err e => Raised e (after_stuck_test x)
        | Ok k =>
            Returned (float64_of_Z (top + 1), k)
              (alter (set_lifecycle 1) k (after_stuck_test x))
        end
      else Raised AssertionError x
  end.
Proof.
  unfold iter_Kahn_select, after_stuck_test. msimpl.
  destruct (np_amax (col1 x)) as [top|e]; [|reflexivity].
  destruct (1 <=? float64_of_Z (top + 1)); [|reflexivity].
  destruct (np_sum (ready_flags x) =? 0);
    match goal with |- context [np_argmin ?l] => destruct (np_argmin l) end;
    reflexivity.
Qed.

(** The loop over the neighbours is never entered: the value of
    [neigh.reverse()] is [None], which cannot be iterated. *)
Lemma iter_Kahn_propagate_eq (g : Graph) (E : matrix) (next_label : Z)
  (node_to_free : nat) (x : state_vector) :
  iter_Kahn_propagate g E next_label node_to_free x =
  match E !! node_to_free with
  | Some r =>
      if forallb (fun id => Nat.ltb id (number_of_nodes g))
           (argwhere (Z.eqb 1) r)
      then Raised TypeError x
      else Raised KeyError x
  | None => Raised IndexError x
  end.
Proof.
  unfold iter_Kahn_propagate, sorted_by_priority.
  destruct (E !! node_to_free) as [r|]; [|reflexivity]. msimpl.
  destruct (forallb _ _); reflexivity.
Qed.

Lemma iter_Kahn_eq (g : Graph) (E : matrix) (x : state_vector) :
  iter_Kahn g E x =
  match iter_Kahn_select x with
  | Returned (_, node_to_free) x' =>
      match E !! node_to_free with
      | Some r =>
          if forallb (fun id => Nat.ltb id (number_of_nodes g))
               (argwhere (Z.eqb 1) r)
          then Raised TypeError x'
          else Raised KeyError x'
      | None => Raised IndexError x'
      end
  | Raised e x' => Raised e x'
  | OutOfFuel x' => OutOfFuel x'
  end.
Proof.
  unfold iter_Kahn. msimpl.
  destruct (iter_Kahn_select x) as [[nl k] x'|e x'|x']; try reflexivity.
  apply iter_Kahn_propagate_eq.
Qed.

(** No call of [iter_Kahn] returns. *)
Lemma iter_Kahn_never_returns (g : Graph) (E : matrix) (x : state_vector) :
  exists e x', iter_Kahn g E x = Raised e x'.
Proof.
  rewrite iter_Kahn_eq, iter_Kahn_select_eq.
  destruct (np_amax (col1 x)) as [top|e]; [|eauto].
  destruct (1 <=? float64_of_Z (top + 1)); [|eauto].
  destruct (np_argmin _) as [k|e]; [|eauto].
  destruct (E !! k) as [r|]; [|eauto].
  destruct (forallb _ _); eauto.
Qed.

(** What the assertion of line 99 decides. *)
Lemma iter_Kahn_assertion_fails (g : Graph) (E : matrix) (x : state_vector)
  (top : Z) :
  np_amax (col1 x) = Ok top -> top < 0 ->
  iter_Kahn g E x = Raised AssertionError x.
Proof.
  intros Htop Hneg. rewrite iter_Kahn_eq, iter_Kahn_select_eq, Htop.
  rewrite (next_label_fails top Hneg). reflexivity.
Qed.

(** ** Lookups in the columns *)

Lemma lookup_ready_labels (x : state_vector) (i : nat) (e : entry) :
  x !! i = Some e ->
  ready_labels x !! i =
  Some (if lifecycle e =? 0 then Fin (label e) else Inf).
Proof.
  intros H. unfold ready_labels. rewrite lookup_map, H. reflexivity.
Qed.

Lemma lookup_ready_labels_inv (x : state_vector) (i : nat) (m : ext) :
  ready_labels x !! i = Some m ->
  exists e, x !! i = Some e /\
            m = if lifecycle e =? 0 then Fin (label e) else Inf.
Proof.
  unfold ready_labels. rewrite lookup_map.
  destruct (x !! i) as [e|]; cbn; intros H; [|discriminate].
  injection H as <-. eauto.
Qed.

(** ** The node chosen by line 105 *)

Lemma np_argmin_ready (x : state_vector) (i0 : nat) (e0 : entry) :
  x !! i0 = Some e0 -> lifecycle e0 = 0 ->
  exists k, np_argmin (ready_labels x) = Ok k /\ least_ready x k.
Proof.
  intros Hi0 He0.
  assert (Hne : ready_labels x <> []).
  { destruct x; [discriminate|]. discriminate. }
  destruct (np_argmin_spec _ Hne) as (k & m & Hk & Hm & Hleast & Hfirst).
  exists k. split; [assumption|].
  destruct (lookup_ready_labels_inv _ _ _ Hm) as (ek & Hek & Hmk).
  pose proof (lookup_ready_labels _ _ _ Hi0) as H0.
  rewrite He0 in H0. cbn in H0.
  pose proof (Hleast _ _ H0) as Hle0.
  destruct (lifecycle ek =? 0) eqn:Hrk; subst m; [|discriminate Hle0].
  apply Z.eqb_eq in Hrk.
  exists ek. split; [assumption|]. split; [assumption|].
  intros j ej Hj Hrj.
  pose proof (lookup_ready_labels _ _ _ Hj) as Hlj.
  rewrite Hrj in Hlj. cbn in Hlj.
  pose proof (Hleast _ _ Hlj) as Hle. cbn in Hle. apply Z.ltb_ge in Hle.
  split; [assumption|].
  intros Heq. destruct (Nat.le_gt_cases k j) as [|Hlt]; [assumption|].
  pose proof (Hfirst _ _ Hlt Hlj) as Hbad. cbn in Hbad.
  apply Z.ltb_lt in Hbad. lia.
Qed.

Lemma np_sum_ready_flags_inv (x : state_vector) :
  np_sum (ready_flags x) <> 0 ->
  exists i e, x !! i = Some e /\ lifecycle e = 0.
Proof.
  induction x as [|e x IH]; cbn; [congruence|].
  fold (ready_flags x). fold (np_sum (ready_flags x)).
  destruct (lifecycle e =? 0) eqn:He.
  - intros _. exists 0%nat, e. split; [reflexivity|].
    apply Z.eqb_eq; assumption.
  - intros H. destruct IH as (i & e' & Hi & He'); [lia|].
    exists (S i), e'. split; assumption.
Qed.

Lemma argmin_from_all_inf (l : list ext) :
  forall bi i, Forall (eq Inf) l -> argmin_from bi Inf i l = bi.
Proof.
  induction l as [|a l IH]; intros bi i Hl; cbn [argmin_from].
  - reflexivity.
  - inversion Hl; subst. cbn. apply IH; assumption.
Qed.

Lemma ready_labels_all_done (x : state_vector) :
  Forall (eq Inf) (ready_labels (map (set_lifecycle 1) x)).
Proof.
  induction x as [|e x IH]; cbn; constructor; auto.
Qed.

Lemma alter_done_all_done (x : state_vector) (k : nat) :
  alter (set_lifecycle 1) k (map (set_lifecycle 1) x) =
  map (set_lifecycle 1) x.
Proof.
  revert k. induction x as [|e x IH]; intros [|k]; cbn; try reflexivity.
  f_equal. apply IH.
Qed.

(** With a ready node and a passing assertion, the step sets the least
    ready node as seen and touches nothing else before the loop. *)
Lemma iter_Kahn_select_ready (x : state_vector) (i0 : nat) (e0 : entry)
  (top : Z) :
  x !! i0 = Some e0 -> lifecycle e0 = 0 ->
  np_amax (col1 x) = Ok top -> 0 <= top ->
  exists k,
    least_ready x k /\
    iter_Kahn_select x =
    Returned (float64_of_Z (top + 1), k) (alter (set_lifecycle 1) k x).
Proof.
  intros Hi0 He0 Htop Hpos.
  destruct (np_argmin_ready x i0 e0 Hi0 He0) as (k & Hk & Hleast).
  exists k. split; [assumption|].
  rewrite iter_Kahn_select_eq, Htop.
  rewrite (next_label_passes top Hpos).
  unfold after_stuck_test.
  pose proof (np_sum_ready_flags_some x i0 e0 Hi0 He0) as Hsum.
  destruct (np_sum (ready_flags x) =? 0) eqn:Hz;
    [apply Z.eqb_eq in Hz; lia|].
  rewrite Hk. reflexivity.
Qed.

(** With no ready node and a passing assertion, every node is set as seen
    and node 0 is chosen. *)
Lemma iter_Kahn_select_stuck (x : state_vector) (top : Z) :
  Forall (fun e => lifecycle e <> 0) x ->
  np_amax (col1 x) = Ok top -> 0 <= top ->
  iter_Kahn_select x =
  Returned (float64_of_Z (top + 1), 0%nat) (map (set_lifecycle 1) x).
Proof.
  intros Hnone Htop Hpos.
  rewrite iter_Kahn_select_eq, Htop.
  rewrite (next_label_passes top Hpos).
  unfold after_stuck_test. rewrite (np_sum_ready_flags_none x Hnone). cbn.
  destruct x as [|e x]; [discriminate Htop|].
  cbn [map ready_labels np_argmin].
  change (map (fun e1 => if lifecycle e1 =? 0 then Fin (label e1) else Inf)
            (map (set_lifecycle 1) x))
    with (ready_labels (map (set_lifecycle 1) x)).
  cbn [set_lifecycle lifecycle]. cbn [Z.eqb].
  rewrite argmin_from_all_inf by apply ready_labels_all_done.
  reflexivity.
Qed.

(** ** [initialize_x] always takes the early return *)

Lemma list_reverse_is_none (l : list nat) :
  truth (snd (list_reverse l)) = false.
Proof. reflexivity. Qed.

Lemma initialize_x_eq (g : Graph) :
  initialize_x g =
  if Nat.eqb (number_of_nodes g) 0 then Err IndexError
  else Ok (degree_array (to_numpy_matrix g) (number_of_nodes g)).
Proof.
  unfold initialize_x. destruct (Nat.eqb (number_of_nodes g) 0); reflexivity.
Qed.

Lemma degree_array_lookup (E : matrix) (n i : nat) :
  (i < n)%nat ->
  degree_array E n !! i = Some (Entry (get_degree E i) (-1) (-1)).
Proof.
  intros Hi. unfold degree_array.
  rewrite lookup_map, lookup_seq_lt by assumption. reflexivity.
Qed.

Lemma degree_array_unlabelled (E : matrix) (n : nat) :
  Forall (fun e => label e = -1 /\ lifecycle e = -1) (degree_array E n).
Proof.
  unfold degree_array. generalize (seq 0 n) as ids.
  induction ids as [|i ids IH]; cbn; constructor; auto.
Qed.

Lemma degree_array_nonempty (E : matrix) (n : nat) :
  n <> 0%nat -> degree_array E n <> [].
Proof. destruct n; [congruence|]. discriminate. Qed.

Lemma Forall_map_const {A : Type} (f : A -> Z) (v : Z) (l : list A) :
  Forall (fun a => f a = v) l -> Forall (eq v) (map f l).
Proof.
  induction 1 as [|a l Ha _ IH]; cbn; constructor; auto.
Qed.

Lemma np_amax_unlabelled (x : state_vector) :
  x <> [] -> Forall (fun e => label e = -1) x -> np_amax (col1 x) = Ok (-1).
Proof.
  destruct x as [|e x]; [congruence|]. intros _ H.
  inversion H as [|? ? He Hx]; subst. cbn [col1 map np_amax]. rewrite He.
  f_equal. apply extremum_const; [reflexivity|].
  apply Forall_map_const; assumption.
Qed.

Lemma np_amin_blocked (x : state_vector) :
  x <> [] -> Forall (fun e => lifecycle e = -1) x ->
  np_amin (col2 x) = Ok (-1).
Proof.
  destruct x as [|e x]; [congruence|]. intros _ H.
  inversion H as [|? ? He Hx]; subst. cbn [col2 map np_amin]. rewrite He.
  f_equal. apply extremum_const; [reflexivity|].
  apply Forall_map_const; assumption.
Qed.

(** ** The two loops that are never reached

    Run on the lists they were written for, the loops label the nodes as
    Kahn's algorithm does: the free nodes of the diamond from 1 on, and,
    once node 0 is seen, its neighbours 1 and 2 from 2 on. *)

Lemma label_free_nodes_diamond :
  label_free_nodes [0%nat] 1
    [Entry 0 (-1) (-1); Entry 1 (-1) (-1); Entry 1 (-1) (-1);
     Entry 2 (-1) (-1)] =
  Ok [Entry 0 1 0; Entry 1 (-1) (-1); Entry 1 (-1) (-1); Entry 2 (-1) (-1)].
Proof. reflexivity. Qed.

Lemma free_neighbours_diamond :
  free_neighbours (sorted (priority diamond) [1; 2]%nat) 2
    [Entry 0 1 1; Entry 1 (-1) (-1); Entry 1 (-1) (-1); Entry 2 (-1) (-1)] =
  Returned tt
    [Entry 0 1 1; Entry 0 2 0; Entry 0 3 0; Entry 2 (-1) (-1)].
Proof. vm_compute. reflexivity. Qed.

Lemma free_neighbours_out_of_range :
  free_neighbours [5%nat] 2 [Entry 0 1 1] = Raised IndexError [Entry 0 1 1].
Proof. reflexivity. Qed.

(** ** The loop of [run] *)

Lemma run_loop_step_raises (g : Graph) (E : matrix) (fuel : nat) (x : loc)
  (history : list loc) (h : store) (a a' : state_vector) (least : Z)
  (e : exn) :
  h !! x = Some a -> np_amin (col2 a) = Ok least -> least < 1 ->
  iter_Kahn g E a = Raised e a' ->
  run_loop g E (S fuel) x history h = Raised e (<[x := a']> h).
Proof.
  intros Hx Hmin Hlt Hstep. cbn [run_loop]. msimpl.
  unfold load. rewrite Hx, Hmin.
  destruct (least <? 1) eqn:Hl; [|apply Z.ltb_ge in Hl; lia].
  unfold on_array. rewrite Hx, Hstep. reflexivity.
Qed.

Lemma run_loop_done (g : Graph) (E : matrix) (fuel : nat) (x : loc)
  (history : list loc) (h : store) (a : state_vector) (least : Z) :
  h !! x = Some a -> np_amin (col2 a) = Ok least -> 1 <= least ->
  run_loop g E (S fuel) x history h = Returned history h.
Proof.
  intros Hx Hmin Hge. cbn [run_loop]. msimpl.
  unfold load. rewrite Hx, Hmin.
  destruct (least <? 1) eqn:Hl; [apply Z.ltb_lt in Hl; lia|]. reflexivity.
Qed.

(** On a graph with a node, [run] stops in its first iteration. *)
Lemma run_eq (g : Graph) (fuel : nat) :
  number_of_nodes g <> 0%nat ->
  let x0 := degree_array (to_numpy_matrix g) (number_of_nodes g) in
  run (S fuel) g [] = Raised AssertionError [x0; x0].
Proof.
  intros Hn x0.
  pose proof (degree_array_unlabelled (to_numpy_matrix g) (number_of_nodes g))
    as Hun. fold x0 in Hun.
  pose proof (degree_array_nonempty (to_numpy_matrix g) _ Hn) as Hne.
  fold x0 in Hne.
  assert (Hstep : iter_Kahn g (to_numpy_matrix g) x0
                  = Raised AssertionError x0).
  { apply (iter_Kahn_assertion_fails _ _ _ (-1)); [|lia].
    apply np_amax_unlabelled; [assumption|].
    eapply Forall_impl; [exact Hun|]. intros e [He _]; exact He. }
  assert (Hmin : np_amin (col2 x0) = Ok (-1)).
  { apply np_amin_blocked; [assumption|].
    eapply Forall_impl; [exact Hun|]. intros e [_ He]; exact He. }
  unfold run. rewrite initialize_x_eq.
  destruct (Nat.eqb (number_of_nodes g) 0) eqn:Hz;
    [apply Nat.eqb_eq in Hz; congruence|].
  fold x0. clearbody x0. msimpl.
  unfold alloc, np_copy, load. msimpl. cbn [length app lookup list_lookup].
  unfold alloc. cbn [length app].
  rewrite (run_loop_step_raises g _ fuel 0%nat [1%nat] [x0; x0] x0 x0 (-1)
             AssertionError); [reflexivity|reflexivity|assumption|lia|assumption].
Qed.

Lemma run_never_returns (g : Graph) (fuel : nat) :
  ~ exists r s, run fuel g [] = Returned r s.
Proof.
  intros (r & s & H).
  destruct (Nat.eq_dec (number_of_nodes g) 0%nat) as [Hz|Hn].
  - unfold run in H. rewrite initialize_x_eq, Hz in H. discriminate H.
  - destruct fuel as [|fuel].
    + unfold run in H. rewrite initialize_x_eq in H.
      destruct (Nat.eqb (number_of_nodes g) 0); discriminate H.
    + rewrite run_eq in H by assumption. discriminate H.
Qed.

(** ** The copies kept in the store *)

Lemma on_array_frame {A : Type} (l l' : nat) (m : M state_vector A)
  (h : store) :
  l <> l' -> state_of (on_array l m h) !! l' = h !! l'.
Proof.
  intros Hne. unfold on_array.
  destruct (h !! l) as [a|]; [|reflexivity].
  destruct (m a); cbn [state_of]; apply list_lookup_insert_ne; assumption.
Qed.

Lemma on_array_length {A : Type} (l : nat) (m : M state_vector A)
  (h : store) :
  length (state_of (on_array l m h)) = length h.
Proof.
  unfold on_array. destruct (h !! l) as [a|]; [|reflexivity].
  destruct (m a); cbn [state_of]; apply length_insert.
Qed.

(** Whatever the steps do, the loop of [run] writes only into the live
    array and into the copies it allocates: an array that is already in
    the store, other than the live one, keeps its contents. *)
Lemma run_loop_keeps_snapshots (g : Graph) (E : matrix) (fuel : nat) :
  forall (x : nat) (history : list nat) (h : store) (l : nat),
    l <> x -> (l < length h)%nat ->
    state_of (run_loop g E fuel x history h) !! l = h !! l.
Proof.
  induction fuel as [|fuel IH]; intros x history h l Hne Hl; [reflexivity|].
  cbn [run_loop]. msimpl. unfold load.
  destruct (h !! x) as [a|] eqn:Hx; [|reflexivity].
  destruct (np_amin (col2 a)) as [least|e]; [|reflexivity].
  destruct (least <? 1); [|reflexivity].
  pose proof (on_array_frame x l (iter_Kahn g E) h (not_eq_sym Hne)) as Hfr.
  pose proof (on_array_length x (iter_Kahn g E) h) as Hlen.
  destruct (on_array x (iter_Kahn g E) h) as [[] h1|e h1|h1];
    cbn [state_of] in Hfr, Hlen; try assumption.
  unfold np_copy, load. msimpl.
  destruct (h1 !! x) as [a1|]; [|assumption].
  unfold alloc. rewrite IH.
  - rewrite lookup_app_l by lia. assumption.
  - assumption.
  - rewrite length_app. lia.
Qed.

(** ** The columns a step can change *)

Lemma map_alter_same {A B : Type} (f : A -> B) (u : A -> A) (k : nat)
  (l : list A) :
  (forall a, f (u a) = f a) -> map f (alter u k l) = map f l.
Proof.
  intros Hf. revert k. induction l as [|a l IH]; intros [|k]; cbn;
    try reflexivity.
  - rewrite Hf. reflexivity.
  - f_equal. apply IH.
Qed.

Lemma map_map_same {A B : Type} (f : A -> B) (u : A -> A) (l : list A) :
  (forall a, f (u a) = f a) -> map f (map u l) = map f l.
Proof.
  intros Hf. induction l as [|a l IH]; cbn; [reflexivity|].
  rewrite Hf, IH. reflexivity.
Qed.

Lemma after_stuck_test_columns (x : state_vector) :
  col0 (after_stuck_test x) = col0 x /\ col1 (after_stuck_test x) = col1 x.
Proof.
  unfold after_stuck_test. destruct (np_sum (ready_flags x) =? 0);
    split; try reflexivity; apply map_map_same; reflexivity.
Qed.

(** A call of [iter_Kahn] leaves the constraint counts and the labels as
    they were: only the lifecycle column is written. *)
Lemma iter_Kahn_only_lifecycle (g : Graph) (E : matrix) (x : state_vector) :
  col0 (state_of (iter_Kahn g E x)) = col0 x /\
  col1 (state_of (iter_Kahn g E x)) = col1 x.
Proof.
  destruct (after_stuck_test_columns x) as [H0 H1].
  rewrite iter_Kahn_eq, iter_Kahn_select_eq.
  destruct (np_amax (col1 x)) as [top|e]; [|split; reflexivity].
  destruct (1 <=? float64_of_Z (top + 1)); [|split; reflexivity].
  destruct (np_argmin _) as [k|e]; [|split; assumption].
  destruct (E !! k) as [r|]; [destruct (forallb _ _)|];
    cbn [state_of]; unfold col0, col1;
    rewrite !map_alter_same by reflexivity; split; assumption.
Qed.

(** ** The degrees computed by [initialize_x] *)

Lemma get_degree_column (g : Graph) (i : nat) :
  (i < number_of_nodes g)%nat ->
  get_degree (to_numpy_matrix g) i =
  np_sum (map (fun j => weight g j i) (seq 0 (number_of_nodes g))).
Proof.
  intros Hi. unfold get_degree, to_numpy_matrix. rewrite map_map.
  f_equal. apply map_ext. intros j.
  rewrite (nth_indep _ 0 (weight g j 0%nat)) by (rewrite length_map, length_seq; lia).
  rewrite (map_nth (fun j' => weight g j j')), seq_nth by lia. reflexivity.
Qed.

(** ** A passing assertion *)

Lemma iter_Kahn_select_passes (x : state_vector) (top : Z) :
  np_amax (col1 x) = Ok top -> 0 <= top ->
  exists k,
    (k < length x)%nat /\
    iter_Kahn_select x =
    Returned (float64_of_Z (top + 1), k)
      (alter (set_lifecycle 1) k (after_stuck_test x)).
Proof.
  intros Htop Hpos. rewrite iter_Kahn_select_eq, Htop.
  rewrite (next_label_passes top Hpos).
  assert (Hlen : length (ready_labels (after_stuck_test x)) = length x).
  { unfold ready_labels, after_stuck_test.
    destruct (np_sum (ready_flags x) =? 0); rewrite ?length_map; reflexivity. }
  assert (Hne : ready_labels (after_stuck_test x) <> []).
  { intros Hnil. rewrite Hnil in Hlen. destruct x; [discriminate Htop|].
    discriminate Hlen. }
  destruct (np_argmin_spec _ Hne) as (k & m & Hk & Hm & _).
  exists k. rewrite Hk. split; [|reflexivity].
  apply lookup_lt_Some in Hm. lia.
Qed.

Lemma entry_not_done_changes (e : entry) :
  lifecycle e <> 1 -> set_lifecycle 1 e <> e.
Proof. intros Hne Heq. apply Hne. rewrite <- Heq. reflexivity. Qed.

(** When some node is not done yet, the writes of lines 102 to 108 change
    the array. *)
Lemma iter_Kahn_select_changes (x : state_vector) (k : nat) (i : nat)
  (e : entry) (top : Z) (x' : state_vector) :
  x !! i = Some e -> lifecycle e <> 1 ->
  iter_Kahn_select x = Returned (top, k) x' -> x' <> x.
Proof.
  intros Hi He Hsel Heq. subst x'.
  rewrite iter_Kahn_select_eq in Hsel.
  destruct (np_amax (col1 x)) as [top'|]; [|discriminate Hsel].
  destruct (1 <=? float64_of_Z (top' + 1)); [|discriminate Hsel].
  unfold after_stuck_test in Hsel.
  destruct (np_sum (ready_flags x) =? 0) eqn:Hz.
  - destruct (np_argmin _) as [k'|]; [|discriminate Hsel].
    injection Hsel as _ _ Hx. rewrite alter_done_all_done in Hx.
    apply (entry_not_done_changes e He).
    assert (H : map (set_lifecycle 1) x !! i = Some (set_lifecycle 1 e))
      by (rewrite lookup_map, Hi; reflexivity).
    rewrite Hx, Hi in H. injection H as H. symmetry. exact H.
  - apply Z.eqb_neq in Hz.
    destruct (np_sum_ready_flags_inv x Hz) as (i0 & e0 & Hi0 & He0).
    destruct (np_argmin_ready x i0 e0 Hi0 He0) as (k' & Hk' & ek & Hek & Hrk & _).
    rewrite Hk' in Hsel. injection Hsel as _ _ Hx.
    assert (H : alter (set_lifecycle 1) k' x !! k' = Some (set_lifecycle 1 ek))
      by (rewrite list_lookup_alter_eq, Hek; reflexivity).
    rewrite Hx, Hek in H. injection H as H.
    apply (entry_not_done_changes ek); [lia | symmetry; assumption].
Qed.

(** ** The least lifecycle *)

Lemma extremum_min_le (l : list Z) :
  forall a, extremum Z.min a l <= a /\
            (forall j v, l !! j = Some v -> extremum Z.min a l <= v).
Proof.
  induction l as [|b l IH]; intros a; cbn [extremum].
  - split; [lia|]. intros j v H. discriminate H.
  - destruct (IH (Z.min a b)) as [Ha Hl]. split; [lia|].
    intros [|j] v H; cbn in H.
    + injection H as <-. lia.
    + eauto.
Qed.

Lemma np_amin_le (l : list Z) (j : nat) (v : Z) :
  l !! j = Some v -> exists least, np_amin l = Ok least /\ least <= v.
Proof.
  destruct l as [|a l]; [discriminate|]. intros H. cbn [np_amin].
  eexists; split; [reflexivity|].
  destruct (extremum_min_le l a) as [Ha Hl].
  destruct j as [|j]; cbn in H.
  - injection H as <-. assumption.
  - eauto.
Qed.

(** ** The nodes found in a row of the graph's own matrix *)

Lemma elem_of_argwhere_from {A : Type} (p : A -> bool) (l : list A) :
  forall (s i : nat),
    i ∈ argwhere_from p s l <->
    (s <= i)%nat /\ exists a, l !! (i - s)%nat = Some a /\ p a = true.
Proof.
  induction l as [|a l IH]; intros s i; cbn [argwhere_from].
  - split.
    + intros H. apply elem_of_nil in H. contradiction.
    + intros (_ & a & H & _). discriminate H.
  - assert (Htail : i ∈ argwhere_from p (S s) l <->
                    (s < i)%nat /\
                    exists a', (a :: l) !! (i - s)%nat = Some a' /\ p a' = true).
    { rewrite IH. split.
      - intros (Hle & a' & Ha' & Hp). split; [lia|]. exists a'.
        split; [|exact Hp].
        replace (i - s)%nat with (S (i - S s)) by lia. exact Ha'.
      - intros (Hlt & a' & Ha' & Hp). split; [lia|]. exists a'.
        split; [|exact Hp].
        replace (i - s)%nat with (S (i - S s)) in Ha' by lia. exact Ha'. }
    destruct (p a) eqn:Hpa.
    + rewrite elem_of_cons, Htail. split.
      * intros [->|(Hlt & Hex)].
        -- split; [lia|]. exists a. rewrite Nat.sub_diag. split; auto.
        -- split; [lia | exact Hex].
      * intros (Hle & a' & Ha' & Hp).
        destruct (Nat.eq_dec i s) as [->|Hne]; [left; reflexivity|].
        right. split; [lia|]. eauto.
    + rewrite Htail. split.
      * intros (Hlt & Hex). split; [lia | exact Hex].
      * intros (Hle & a' & Ha' & Hp).
        destruct (Nat.eq_dec i s) as [->|Hne].
        -- rewrite Nat.sub_diag in Ha'. cbn in Ha'. injection Ha' as <-.
           congruence.
        -- split; [lia|]. eauto.
Qed.

Lemma to_numpy_matrix_length (g : Graph) :
  length (to_numpy_matrix g) = number_of_nodes g.
Proof. unfold to_numpy_matrix. rewrite length_map, length_seq. reflexivity. Qed.

Lemma to_numpy_matrix_row_nodes (g : Graph) (k : nat) (r : list Z) :
  to_numpy_matrix g !! k = Some r ->
  forallb (fun id => Nat.ltb id (number_of_nodes g)) (argwhere (Z.eqb 1) r)
  = true.
Proof.
  intros Hr. unfold to_numpy_matrix in Hr. rewrite lookup_map in Hr.
  destruct (seq 0 (number_of_nodes g) !! k) as [k'|]; [|discriminate Hr].
  cbn in Hr. injection Hr as <-.
  apply forallb_forall. intros id Hid. apply list_elem_of_In in Hid.
  unfold argwhere in Hid. apply elem_of_argwhere_from in Hid
    as (_ & a & Ha & _).
  apply lookup_lt_Some in Ha. rewrite length_map, length_seq in Ha.
  apply Nat.ltb_lt. lia.
Qed.

(** * The claims *)

(** ** [run] *)

(** C3.  On every graph with at least one node [run] never returns.
    [initialize_x] takes the early return, because the value of
    [free_nodes.reverse()] is [None], whose negation is true; it gives no
    label, so every label is -1.  The first call of [iter_Kahn] then
    finds [next_label = -1 + 1 = 0], the assertion [next_label >= 1]
    fails, and [run] raises [AssertionError] in its first iteration: when
    it stops the store holds the live array and the one copy taken before
    the loop, both as [initialize_x] left them. *)
Theorem run_raises_AssertionError (g : Graph) (fuel : nat) :
  (1 <= number_of_nodes g)%nat ->
  let E := to_numpy_matrix g in
  let x0 := degree_array E (number_of_nodes g) in
  truth (snd (list_reverse
                (sorted (priority g) (argwhere (Z.eqb 0) (col0 x0))))) = false /\
  initialize_x g = Ok x0 /\
  Forall (fun e => label e = -1 /\ lifecycle e = -1) x0 /\
  np_amax (col1 x0) = Ok (-1) /\
  iter_Kahn g E x0 = Raised AssertionError x0 /\
  run (S fuel) g [] = Raised AssertionError [x0; x0] /\
  (forall fuel', ~ exists r s, run fuel' g [] = Returned r s).
Proof.
  intros Hn E x0.
  assert (Hn0 : number_of_nodes g <> 0%nat) by lia.
  pose proof (degree_array_unlabelled E (number_of_nodes g)) as Hun.
  fold x0 in Hun.
  assert (Hmax : np_amax (col1 x0) = Ok (-1)).
  { apply np_amax_unlabelled.
    - apply degree_array_nonempty; assumption.
    - eapply Forall_impl; [exact Hun|]. intros e [He _]; exact He. }
  split; [apply list_reverse_is_none|].
  split.
  { rewrite initialize_x_eq.
    destruct (Nat.eqb (number_of_nodes g) 0) eqn:Hz;
      [apply Nat.eqb_eq in Hz; congruence | reflexivity]. }
  split; [assumption|].
  split; [assumption|].
  split; [apply (iter_Kahn_assertion_fails g E x0 (-1) Hmax); lia|].
  split; [apply run_eq; assumption|].
  intros fuel'. apply run_never_returns.
Qed.

Lemma run_raises_AssertionError_witness :
  (1 <= number_of_nodes diamond)%nat /\
  run 1 diamond [] =
  Raised AssertionError
    [[Entry 0 (-1) (-1); Entry 1 (-1) (-1); Entry 1 (-1) (-1);
      Entry 2 (-1) (-1)];
     [Entry 0 (-1) (-1); Entry 1 (-1) (-1); Entry 1 (-1) (-1);
      Entry 2 (-1) (-1)]].
Proof.
  assert (Hn : (1 <= number_of_nodes diamond)%nat) by (cbn; lia).
  split; [exact Hn|].
  destruct (run_raises_AssertionError diamond 0 Hn)
    as (_ & _ & _ & _ & _ & Hrun & _).
  exact Hrun.
Defined.

(** C1.  The chain 0 -> 1 -> 2 has no cycle, and its labels should come
    out as 1, 2, 3.  The run raises [AssertionError] instead, whatever the
    fuel, so no final labels are ever produced: the store still holds the
    unlabelled array. *)
Theorem run_chain3_gives_no_labels :
  run 4 chain3 [] =
  Raised AssertionError
    [[Entry 0 (-1) (-1); Entry 1 (-1) (-1); Entry 1 (-1) (-1)];
     [Entry 0 (-1) (-1); Entry 1 (-1) (-1); Entry 1 (-1) (-1)]] /\
  (forall fuel, ~ exists r s, run fuel chain3 [] = Returned r s).
Proof.
  split; [vm_compute; reflexivity|].
  intros fuel. apply run_never_returns.
Qed.

(** C8.  On the graph with one node and no edge the first copy made by
    [run] is the array of [initialize_x]: node 0 has no constraint, so it
    is eligible, yet no entry of the copy is ready; and the run raises
    instead of returning a history of length 2. *)
Theorem run_isolated1_first_snapshot :
  initialize_x isolated1 = Ok [Entry 0 (-1) (-1)] /\
  argwhere (Z.eqb 0) (col0 [Entry 0 (-1) (-1)]) = [0%nat] /\
  argwhere (Z.eqb 0) (col2 [Entry 0 (-1) (-1)]) = [] /\
  run 2 isolated1 [] =
  Raised AssertionError [[Entry 0 (-1) (-1)]; [Entry 0 (-1) (-1)]] /\
  (forall fuel, ~ exists r s, run fuel isolated1 [] = Returned r s).
Proof.
  split; [vm_compute; reflexivity|].
  split; [vm_compute; reflexivity|].
  split; [vm_compute; reflexivity|].
  split; [vm_compute; reflexivity|].
  intros fuel. apply run_never_returns.
Qed.


(** ** [initialize_x] *)

(** C2.  On the graph with one node and no edge, node 0 has degree 0 and
    should come out ready with label 1.  [initialize_x] returns it with no
    label and blocked; on the diamond the degrees are right, and node 0,
    the only free node, is left without a label as well. *)
Theorem initialize_x_gives_no_label :
  initialize_x isolated1 = Ok [Entry 0 (-1) (-1)] /\
  initialize_x diamond =
  Ok [Entry 0 (-1) (-1); Entry 1 (-1) (-1); Entry 1 (-1) (-1);
      Entry 2 (-1) (-1)].
Proof. split; vm_compute; reflexivity. Qed.

(** ** [iter_Kahn] *)

(** C4, as the claim states it, fails on an array whose ready entry has
    no label: the assertion comes first, the call raises
    [AssertionError], and no lifecycle is set to done. *)
Lemma iter_Kahn_ready_unlabelled_asserts :
  (exists i e, [Entry 0 (-1) 0] !! i = Some e /\ lifecycle e = 0) /\
  iter_Kahn isolated1 (to_numpy_matrix isolated1) [Entry 0 (-1) 0] =
  Raised AssertionError [Entry 0 (-1) 0].
Proof.
  split; [|vm_compute; reflexivity].
  exists 0%nat, (Entry 0 (-1) 0). split; reflexivity.
Qed.

(** C4, amended.  Take an array with a ready entry, and let [top] be its
    greatest label.  When [top] is 0 or more, so that the assertion
    passes, the step chooses the ready node [k] of least label, the first
    one when several share it, and the array it leaves is the one it was
    given with the lifecycle of [k] set to done: the entry of [k] keeps
    its count and its label, every other entry is as before.  When [top]
    is negative the assertion fails and the array is untouched. *)
Theorem iter_Kahn_finalizes_least_ready (g : Graph) (E : matrix)
  (x : state_vector) (top : Z) :
  (exists i e, x !! i = Some e /\ lifecycle e = 0) ->
  np_amax (col1 x) = Ok top ->
  (0 <= top ->
   exists k,
     least_ready x k /\
     (exists next_label,
         iter_Kahn_select x =
         Returned (next_label, k) (alter (set_lifecycle 1) k x)) /\
     state_of (iter_Kahn g E x) = alter (set_lifecycle 1) k x /\
     (forall ek, x !! k = Some ek ->
                 alter (set_lifecycle 1) k x !! k =
                 Some (Entry (remaining ek) (label ek) 1)) /\
     (forall j, j <> k -> alter (set_lifecycle 1) k x !! j = x !! j)) /\
  (top < 0 -> iter_Kahn g E x = Raised AssertionError x).
Proof.
  intros (i0 & e0 & Hi0 & He0) Htop. split.
  - intros Hpos.
    destruct (iter_Kahn_select_ready x i0 e0 top Hi0 He0 Htop Hpos)
      as (k & Hk & Hsel).
    exists k. split; [assumption|].
    split; [eauto|].
    split.
    { rewrite iter_Kahn_eq, Hsel.
      destruct (E !! k) as [r|]; [destruct (forallb _ _)|]; reflexivity. }
    split.
    + intros ek Hek. rewrite list_lookup_alter_eq, Hek. reflexivity.
    + intros j Hj. apply list_lookup_alter_ne. congruence.
  - intros Hneg. eapply iter_Kahn_assertion_fails; eassumption.
Qed.

Lemma iter_Kahn_finalizes_least_ready_witness :
  let x := [Entry 0 2 0; Entry 0 0 0; Entry 0 0 0; Entry 1 (-1) (-1)] in
  (exists i e, x !! i = Some e /\ lifecycle e = 0) /\
  np_amax (col1 x) = Ok 2 /\
  exists k,
    least_ready x k /\
    state_of (iter_Kahn diamond (to_numpy_matrix diamond) x) =
    alter (set_lifecycle 1) k x.
Proof.
  intros x.
  assert (H1 : exists i e, x !! i = Some e /\ lifecycle e = 0).
  { exists 1%nat, (Entry 0 0 0). split; reflexivity. }
  assert (H2 : np_amax (col1 x) = Ok 2) by reflexivity.
  split; [exact H1|]. split; [exact H2|].
  destruct (iter_Kahn_finalizes_least_ready diamond (to_numpy_matrix diamond)
              x 2 H1 H2) as [Hpass _].
  destruct Hpass as (k & Hk & _ & Hst & _); [lia|].
  exists k. split; assumption.
Defined.

(** C5.  In the diamond, once node 0 is ready with label 1, the step
    should bring the counts of nodes 1 and 2 to zero and label them 2 and
    3.  The call raises [TypeError] when it reaches the loop, having only
    set node 0 as seen: nodes 1 and 2 have no label and are still blocked.
    No call ever writes a label. *)
Theorem iter_Kahn_diamond_gives_no_label :
  iter_Kahn diamond (to_numpy_matrix diamond)
    [Entry 0 1 0; Entry 1 (-1) (-1); Entry 1 (-1) (-1); Entry 2 (-1) (-1)] =
  Raised TypeError
    [Entry 0 1 1; Entry 1 (-1) (-1); Entry 1 (-1) (-1); Entry 2 (-1) (-1)] /\
  (forall g E x, col1 (state_of (iter_Kahn g E x)) = col1 x).
Proof.
  split; [vm_compute; reflexivity|].
  intros g E x. apply iter_Kahn_only_lifecycle.
Qed.

(** C7.  In the chain 0 -> 1 -> 2, node 1 depends on node 0 and is
    blocked with one constraint left.  The step that sets node 0 as seen
    leaves that count at 1: the call raises [TypeError] before the
    decrement.  No call ever changes a count. *)
Theorem iter_Kahn_chain3_decrements_nothing :
  weight chain3 0 1 = 1 /\
  iter_Kahn chain3 (to_numpy_matrix chain3)
    [Entry 0 1 0; Entry 1 (-1) (-1); Entry 1 (-1) (-1)] =
  Raised TypeError [Entry 0 1 1; Entry 1 (-1) (-1); Entry 1 (-1) (-1)] /\
  (forall g E x, col0 (state_of (iter_Kahn g E x)) = col0 x).
Proof.
  split; [reflexivity|].
  split; [vm_compute; reflexivity|].
  intros g E x. apply iter_Kahn_only_lifecycle.
Qed.

(** C6, as the claim states it, fails on the cycle 0 -> 1 -> 0: the array
    of [initialize_x] has no ready entry and two blocked ones, and [run]
    raises [AssertionError] with both entries still blocked; it returns
    nothing. *)
Lemma run_cycle2_raises :
  initialize_x cycle2 = Ok [Entry 1 (-1) (-1); Entry 1 (-1) (-1)] /\
  Forall (fun e => lifecycle e = -1) [Entry 1 (-1) (-1); Entry 1 (-1) (-1)] /\
  run 3 cycle2 [] =
  Raised AssertionError
    [[Entry 1 (-1) (-1); Entry 1 (-1) (-1)];
     [Entry 1 (-1) (-1); Entry 1 (-1) (-1)]] /\
  ~ (exists r s, run 3 cycle2 [] = Returned r s).
Proof.
  split; [vm_compute; reflexivity|].
  split; [repeat constructor|].
  split; [vm_compute; reflexivity|].
  apply run_never_returns.
Qed.

(** C6, amended.  Take an array with no ready entry and a blocked one,
    and let [top] be its greatest label.  When [top] is 0 or more, a
    label having been given before, the call leaves every entry done,
    with every count and every label as they were.  When [top] is
    negative, no label having been given, as for a graph with no free
    node at the beginning, the assertion fails: the call raises
    [AssertionError] on the untouched array, and the loop of [run], on
    such a live array, raises it instead of returning a history. *)
Theorem iter_Kahn_stuck (g : Graph) (E : matrix) (x : state_vector)
  (top : Z) (fuel : nat) (live : nat) (history : list nat) (h : store) :
  Forall (fun e => lifecycle e <> 0) x ->
  (exists i e, x !! i = Some e /\ lifecycle e = -1) ->
  np_amax (col1 x) = Ok top ->
  (0 <= top ->
   state_of (iter_Kahn g E x) = map (set_lifecycle 1) x /\
   Forall (fun e => lifecycle e = 1) (map (set_lifecycle 1) x) /\
   col0 (map (set_lifecycle 1) x) = col0 x /\
   col1 (map (set_lifecycle 1) x) = col1 x) /\
  (top < 0 ->
   iter_Kahn g E x = Raised AssertionError x /\
   (h !! live = Some x ->
    run_loop g E (S fuel) live history h = Raised AssertionError h)).
Proof.
  intros Hnone (i & e & Hi & He) Htop. split.
  - intros Hpos. split.
    { rewrite iter_Kahn_eq, (iter_Kahn_select_stuck x top Hnone Htop Hpos).
      destruct (E !! 0%nat) as [r|]; [destruct (forallb _ _)|]; reflexivity. }
    split.
    + clear. induction x as [|e x IH]; cbn; constructor; auto.
    + split; apply map_map_same; reflexivity.
  - intros Hneg.
    assert (Hstep : iter_Kahn g E x = Raised AssertionError x)
      by (eapply iter_Kahn_assertion_fails; eassumption).
    split; [exact Hstep|]. intros Hlive.
    assert (Hl : col2 x !! i = Some (-1))
      by (unfold col2; rewrite lookup_map, Hi, <- He; reflexivity).
    destruct (np_amin_le _ _ _ Hl) as (least & Hmin & Hle).
    rewrite (run_loop_step_raises g E fuel live history h x x least
               AssertionError Hlive Hmin) by (lia || assumption).
    rewrite list_insert_id by exact Hlive. reflexivity.
Qed.

Lemma iter_Kahn_stuck_witness :
  let g := edges_graph 3 [(1, 2); (2, 1)]%nat (fun _ => inject_Z 0) in
  let x := [Entry 0 1 1; Entry 1 (-1) (-1); Entry 1 (-1) (-1)] in
  Forall (fun e => lifecycle e <> 0) x /\
  (exists i e, x !! i = Some e /\ lifecycle e = -1) /\
  np_amax (col1 x) = Ok 1 /\
  state_of (iter_Kahn g (to_numpy_matrix g) x) =
  [Entry 0 1 1; Entry 1 (-1) 1; Entry 1 (-1) 1].
Proof.
  intros g x.
  assert (H1 : Forall (fun e => lifecycle e <> 0) x)
    by (repeat constructor; discriminate).
  assert (H2 : exists i e, x !! i = Some e /\ lifecycle e = -1).
  { exists 1%nat, (Entry 1 (-1) (-1)). split; reflexivity. }
  assert (H3 : np_amax (col1 x) = Ok 1) by reflexivity.
  split; [exact H1|]. split; [exact H2|]. split; [exact H3|].
  destruct (iter_Kahn_stuck g (to_numpy_matrix g) x 1 0 0 [] [] H1 H2 H3)
    as [Hpass _].
  destruct Hpass as (Hst & _); [lia|]. exact Hst.
Defined.

(** C10, as the claim states it, fails on an array whose only entry is
    done already: the assertion passes, the call raises [TypeError], and
    the array is as it was. *)
Lemma iter_Kahn_all_done_unchanged :
  np_amax (col1 [Entry 0 1 1]) = Ok 1 /\
  iter_Kahn isolated1 (to_numpy_matrix isolated1) [Entry 0 1 1] =
  Raised TypeError [Entry 0 1 1].
Proof. split; vm_compute; reflexivity. Qed.

(** C10, amended.  Take a call on an array with one row per node of the
    graph and on the graph's own adjacency matrix, in which the assertion
    passes.  The call raises [TypeError] at the loop over
    [neigh.reverse()], after lines 96 to 108 have run: the array it
    leaves is the one on which they return, and in it the chosen node is
    done.  Whenever some entry was not done beforehand, this array
    differs from the one the call was given. *)
Theorem iter_Kahn_raises_after_write (g : Graph) (x : state_vector)
  (top : Z) :
  np_amax (col1 x) = Ok top ->
  1 <= float64_of_Z (top + 1) ->
  length x = number_of_nodes g ->
  exists next_label k x',
    iter_Kahn g (to_numpy_matrix g) x = Raised TypeError x' /\
    iter_Kahn_select x = Returned (next_label, k) x' /\
    (exists e, x' !! k = Some e /\ lifecycle e = 1) /\
    ((exists i e, x !! i = Some e /\ lifecycle e <> 1) -> x' <> x).
Proof.
  intros Htop Hpass Hlen.
  apply next_label_passes_inv in Hpass.
  destruct (iter_Kahn_select_passes x top Htop Hpass) as (k & Hk & Hsel).
  exists (float64_of_Z (top + 1)), k,
    (alter (set_lifecycle 1) k (after_stuck_test x)).
  assert (HE : exists r, to_numpy_matrix g !! k = Some r).
  { apply lookup_lt_is_Some_2. rewrite to_numpy_matrix_length. lia. }
  destruct HE as (r & Hr).
  split.
  { rewrite iter_Kahn_eq, Hsel, Hr.
    rewrite (to_numpy_matrix_row_nodes g k r Hr). reflexivity. }
  split; [assumption|].
  split.
  - assert (Hk' : (k < length (after_stuck_test x))%nat).
    { unfold after_stuck_test. destruct (np_sum (ready_flags x) =? 0);
        rewrite ?length_map; assumption. }
    destruct (lookup_lt_is_Some_2 _ _ Hk') as (e & He).
    exists (set_lifecycle 1 e). split; [|reflexivity].
    rewrite list_lookup_alter_eq, He. reflexivity.
  - intros (i & e & Hi & He).
    eapply iter_Kahn_select_changes; eassumption.
Qed.

Lemma iter_Kahn_raises_after_write_witness :
  let x :=
    [Entry 0 1 0; Entry 1 (-1) (-1); Entry 1 (-1) (-1); Entry 2 (-1) (-1)] in
  np_amax (col1 x) = Ok 1 /\ 1 <= float64_of_Z (1 + 1) /\
  length x = number_of_nodes diamond /\
  exists next_label k x',
    iter_Kahn diamond (to_numpy_matrix diamond) x = Raised TypeError x' /\
    iter_Kahn_select x = Returned (next_label, k) x' /\
    x' <> x.
Proof.
  intros x.
  assert (H1 : np_amax (col1 x) = Ok 1) by reflexivity.
  assert (H2 : 1 <= float64_of_Z (1 + 1)) by (vm_compute; discriminate).
  assert (H3 : length x = number_of_nodes diamond) by reflexivity.
  split; [exact H1|]. split; [exact H2|]. split; [exact H3|].
  destruct (iter_Kahn_raises_after_write diamond x 1 H1 H2 H3)
    as (next_label & k & x' & Hraise & Hsel & _ & Hchange).
  exists next_label, k, x'. split; [exact Hraise|]. split; [exact Hsel|].
  apply Hchange. exists 0%nat, (Entry 0 1 0).
  split; [reflexivity | discriminate].
Defined.

(** * Further properties of the code *)

(** ** Every call of [iter_Kahn] ends by raising *)

Lemma after_stuck_test_length (x : state_vector) :
  length (after_stuck_test x) = length x.
Proof.
  unfold after_stuck_test. destruct (np_sum (ready_flags x) =? 0);
    rewrite ?length_map; reflexivity.
Qed.

Lemma np_amax_nonempty (x : state_vector) :
  x <> [] -> exists top, np_amax (col1 x) = Ok top.
Proof. destruct x as [|e x]; [congruence|]. intros _. cbn. eauto. Qed.

Lemma forallb_false_witness {A : Type} (f : A -> bool) (l : list A) :
  forallb f l = false -> exists a, a ∈ l /\ f a = false.
Proof.
  induction l as [|a l IH]; cbn; [discriminate|].
  destruct (f a) eqn:Ha; cbn.
  - intros H. destruct (IH H) as (b & Hb & Hfb).
    exists b. split; [right; exact Hb | exact Hfb].
  - intros _. exists a. split; [left | exact Ha].
Qed.

(** X1.  No call of [iter_Kahn] on an array with at least one row
    returns, whatever the graph and the matrix: the call raises
    [AssertionError], [IndexError], [KeyError] or [TypeError], and the
    array keeps its length.  It raises [AssertionError] exactly when the
    greatest label is negative, and the array is then untouched;
    [IndexError] only when the matrix has fewer rows than the array; and
    [KeyError], from the key of [sorted], only when some row of the
    matrix has a 1 in a column that is not a node of the graph. *)
Theorem iter_Kahn_always_raises (g : Graph) (E : matrix) (x : state_vector) :
  x <> [] ->
  exists e x',
    iter_Kahn g E x = Raised e x' /\
    length x' = length x /\
    (e = AssertionError \/ e = IndexError \/ e = KeyError \/
     e = TypeError) /\
    (e = AssertionError <->
     exists top, np_amax (col1 x) = Ok top /\ top < 0) /\
    (e = AssertionError -> x' = x) /\
    (e = IndexError -> (length E < length x)%nat) /\
    (e = KeyError ->
     exists k r j,
       E !! k = Some r /\ r !! j = Some 1 /\
       (number_of_nodes g <= j)%nat).
Proof.
  intros Hne.
  destruct (np_amax_nonempty x Hne) as (top & Htop).
  destruct (Z_lt_le_dec top 0) as [Hneg|Hpos].
  - exists AssertionError, x.
    rewrite (iter_Kahn_assertion_fails g E x top Htop Hneg).
    repeat split; try congruence; try discriminate; eauto.
  - destruct (iter_Kahn_select_passes x top Htop Hpos) as (k & Hk & Hsel).
    assert (Hlen : length (alter (set_lifecycle 1) k (after_stuck_test x))
                   = length x)
      by (rewrite length_alter; apply after_stuck_test_length).
    assert (Hnot : ~ exists top', np_amax (col1 x) = Ok top' /\ top' < 0).
    { intros (top' & H & Hlt). rewrite Htop in H. injection H as <-. lia. }
    rewrite iter_Kahn_eq, Hsel.
    destruct (E !! k) as [r|] eqn:Hr.
    + destruct (forallb _ _) eqn:Hnodes.
      * exists TypeError, (alter (set_lifecycle 1) k (after_stuck_test x)).
        repeat split; try congruence; try discriminate; try tauto.
      * exists KeyError, (alter (set_lifecycle 1) k (after_stuck_test x)).
        repeat split; try congruence; try discriminate; try tauto.
        intros _. apply forallb_false_witness in Hnodes as (j & Hj & Hout).
        unfold argwhere in Hj. apply elem_of_argwhere_from in Hj
          as (_ & a & Ha & Hone).
        rewrite Nat.sub_0_r in Ha. apply Z.eqb_eq in Hone. subst a.
        apply Nat.ltb_ge in Hout. exists k, r, j. auto.
    + exists IndexError, (alter (set_lifecycle 1) k (after_stuck_test x)).
      apply lookup_ge_None in Hr.
      repeat split; try congruence; try discriminate; try tauto.
      intros _. lia.
Qed.

Lemma iter_Kahn_always_raises_witness :
  [Entry 0 1 0] <> [] /\
  iter_Kahn isolated1 [[0; 1]] [Entry 0 1 0] =
  Raised KeyError [Entry 0 1 1] /\
  exists e x',
    iter_Kahn isolated1 [[0; 1]] [Entry 0 1 0] = Raised e x' /\
    length x' = length [Entry 0 1 0].
Proof.
  assert (H : [Entry 0 1 0] <> []) by discriminate.
  split; [exact H|]. split; [vm_compute; reflexivity|].
  destruct (iter_Kahn_always_raises isolated1 [[0; 1]] [Entry 0 1 0] H)
    as (e & x' & Hraise & Hlen & _).
  exists e, x'. split; assumption.
Defined.

(** ** What a step may write *)

Lemma step_allowed_refl (x : state_vector) : Forall2 step_allowed x x.
Proof.
  induction x as [|e x IH]; constructor; [|assumption].
  repeat split. left; reflexivity.
Qed.

Lemma step_allowed_all_done (x : state_vector) :
  Forall2 step_allowed x (map (set_lifecycle 1) x).
Proof.
  induction x as [|e x IH]; cbn; constructor; [|assumption].
  repeat split. right; reflexivity.
Qed.

Lemma step_allowed_alter (x y : state_vector) (k : nat) :
  Forall2 step_allowed x y ->
  Forall2 step_allowed x (alter (set_lifecycle 1) k y).
Proof.
  intros H. revert k. induction H as [|e e' x y He Hxy IH]; intros k.
  - constructor.
  - destruct k as [|k]; cbn; constructor; auto.
    destruct He as (H0 & H1 & _).
    split; [exact H0|]. split; [exact H1|]. right; reflexivity.
Qed.

(** X2.  A call of [iter_Kahn] keeps the length of the array and, for
    every node, its count and its label; the lifecycle of a node is
    either left as it was or set to done.  In particular a node that is
    done stays done, and no node becomes ready or blocked. *)
Theorem iter_Kahn_lifecycle_monotone (g : Graph) (E : matrix)
  (x : state_vector) :
  Forall2 step_allowed x (state_of (iter_Kahn g E x)) /\
  Forall2 (fun e e' => lifecycle e = 1 -> lifecycle e' = 1)
    x (state_of (iter_Kahn g E x)).
Proof.
  assert (H : Forall2 step_allowed x (state_of (iter_Kahn g E x))).
  { assert (Hafter : Forall2 step_allowed x (after_stuck_test x)).
    { unfold after_stuck_test. destruct (np_sum (ready_flags x) =? 0);
        [apply step_allowed_all_done | apply step_allowed_refl]. }
    rewrite iter_Kahn_eq, iter_Kahn_select_eq.
    destruct (np_amax (col1 x)) as [top|e]; [|apply step_allowed_refl].
    destruct (1 <=? float64_of_Z (top + 1)); [|apply step_allowed_refl].
    destruct (np_argmin _) as [k|e]; [|exact Hafter].
    destruct (E !! k) as [r|]; [destruct (forallb _ _)|];
      cbn [state_of]; apply step_allowed_alter; exact Hafter. }
  split; [exact H|].
  eapply Forall2_impl; [exact H|].
  intros e e' (_ & _ & [Hl|Hl]) Hd; congruence.
Qed.

(** ** An empty graph *)

(** X3.  On a graph with no node [initialize_x] raises [IndexError]: the
    array built from an empty list has one dimension, and [x[:,0]] is
    refused.  [run] raises it as well, before any array is kept. *)
Theorem run_empty_graph (g : Graph) (fuel : nat) :
  number_of_nodes g = 0%nat ->
  initialize_x g = Err IndexError /\
  run fuel g [] = Raised IndexError [].
Proof.
  intros Hn.
  assert (H : initialize_x g = Err IndexError)
    by (rewrite initialize_x_eq, Hn; reflexivity).
  split; [exact H|]. unfold run. rewrite H. reflexivity.
Qed.

Lemma run_empty_graph_witness :
  number_of_nodes (edges_graph 0 [] (fun _ => inject_Z 0)) = 0%nat /\
  run 7 (edges_graph 0 [] (fun _ => inject_Z 0)) [] = Raised IndexError [].
Proof.
  assert (Hn : number_of_nodes (edges_graph 0 [] (fun _ => inject_Z 0))
               = 0%nat) by reflexivity.
  split; [exact Hn|].
  destruct (run_empty_graph _ 7 Hn) as [_ Hrun]. exact Hrun.
Defined.

(** ** The degrees *)

Lemma np_sum_indicator (f : nat -> Z) (l : list nat) :
  (forall j, In j l -> f j = 0 \/ f j = 1) ->
  np_sum (map f l) =
  Z.of_nat (length (List.filter (fun j => f j =? 1) l)).
Proof.
  induction l as [|j l IH]; intros Hl; [reflexivity|].
  cbn [map np_sum foldr List.filter].
  fold (np_sum (map f l)).
  rewrite IH by (intros j' Hj'; apply Hl; right; exact Hj').
  destruct (Hl j (or_introl eq_refl)) as [H|H]; rewrite H;
    cbn [Z.eqb Pos.eqb length]; lia.
Qed.

(** X4.  On a graph with a node [initialize_x] returns one entry per
    node, and the count of node [i] is the sum of column [i] of the
    adjacency matrix.  When the entries of that column are 0 or 1 the
    count is the number of nodes [j] with an edge from [j] to [i], the
    in-degree of [i]. *)
Theorem initialize_x_degrees (g : Graph) :
  (1 <= number_of_nodes g)%nat ->
  exists x,
    initialize_x g = Ok x /\
    length x = number_of_nodes g /\
    forall i, (i < number_of_nodes g)%nat ->
      x !! i =
      Some (Entry (np_sum (map (fun j => weight g j i)
                             (seq 0 (number_of_nodes g)))) (-1) (-1)) /\
      ((forall j, (j < number_of_nodes g)%nat ->
                  weight g j i = 0 \/ weight g j i = 1) ->
       np_sum (map (fun j => weight g j i) (seq 0 (number_of_nodes g))) =
       Z.of_nat (length (List.filter (fun j => weight g j i =? 1)
                           (seq 0 (number_of_nodes g))))).
Proof.
  intros Hn.
  exists (degree_array (to_numpy_matrix g) (number_of_nodes g)).
  split.
  { rewrite initialize_x_eq.
    destruct (Nat.eqb (number_of_nodes g) 0) eqn:Hz;
      [apply Nat.eqb_eq in Hz; lia | reflexivity]. }
  split.
  { unfold degree_array. rewrite length_map, length_seq. reflexivity. }
  intros i Hi. split.
  - rewrite degree_array_lookup by assumption.
    rewrite get_degree_column by assumption. reflexivity.
  - intros H01. apply np_sum_indicator.
    intros j Hj. apply in_seq in Hj. apply H01. lia.
Qed.

Lemma initialize_x_degrees_witness :
  (1 <= number_of_nodes diamond)%nat /\
  exists x,
    initialize_x diamond = Ok x /\
    x !! 3%nat = Some (Entry 2 (-1) (-1)).
Proof.
  assert (Hn : (1 <= number_of_nodes diamond)%nat) by (cbn; lia).
  split; [exact Hn|].
  destruct (initialize_x_degrees diamond Hn) as (x & Hinit & _ & Hdeg).
  exists x. split; [exact Hinit|].
  destruct (Hdeg 3%nat) as [H3 _]; [cbn; lia|].
  rewrite H3. reflexivity.
Defined.

(** ** The loop of [run] from any array *)

Lemma np_amin_nonempty (a : state_vector) :
  a <> [] -> exists least, np_amin (col2 a) = Ok least.
Proof. destruct a as [|e a]; [congruence|]. intros _. cbn. eauto. Qed.

Lemma run_loop_empty_array (g : Graph) (E : matrix) (fuel : nat) (x : nat)
  (history : list nat) (h : store) :
  h !! x = Some [] ->
  run_loop g E (S fuel) x history h = Raised ValueError h.
Proof.
  intros Hx. cbn [run_loop]. msimpl. unfold load. rewrite Hx. reflexivity.
Qed.

(** X5.  The loop of [run], started on any array of the store, makes at
    most one call of [iter_Kahn]; more fuel than 1 changes nothing, so the
    loop always terminates.  It returns exactly when no lifecycle is below
    1, and then at once, with the history and the store it was given.
    Otherwise it stops in its first iteration with the exception of
    [iter_Kahn], the live array being as that call left it; on an empty
    array it raises [ValueError]. *)
Theorem run_loop_at_most_one_step (g : Graph) (E : matrix) (fuel : nat)
  (x : nat) (history : list nat) (h : store) (a : state_vector) :
  h !! x = Some a ->
  run_loop g E (S fuel) x history h = run_loop g E 1 x history h /\
  (a = [] -> run_loop g E (S fuel) x history h = Raised ValueError h) /\
  (forall least, np_amin (col2 a) = Ok least -> 1 <= least ->
     run_loop g E (S fuel) x history h = Returned history h) /\
  (forall least, np_amin (col2 a) = Ok least -> least < 1 ->
     exists e a',
       iter_Kahn g E a = Raised e a' /\
       run_loop g E (S fuel) x history h = Raised e (<[x := a']> h)).
Proof.
  intros Hx.
  assert (Hraise : forall fuel' least,
             np_amin (col2 a) = Ok least -> least < 1 ->
             exists e a',
               iter_Kahn g E a = Raised e a' /\
               run_loop g E (S fuel') x history h = Raised e (<[x := a']> h)).
  { intros fuel' least Hmin Hlt.
    destruct (iter_Kahn_never_returns g E a) as (e & a' & Hstep).
    exists e, a'. split; [exact Hstep|].
    eapply run_loop_step_raises; eassumption. }
  split; [|split; [|split]].
  - destruct a as [|e0 a0] eqn:Ha.
    { rewrite !run_loop_empty_array by assumption. reflexivity. }
    rewrite <- Ha in *.
    destruct (np_amin_nonempty a) as (least & Hmin); [rewrite Ha; discriminate|].
    destruct (Z_lt_le_dec least 1) as [Hlt|Hge].
    + destruct (Hraise fuel least Hmin Hlt) as (e & a' & Hstep & Hrun).
      destruct (Hraise 0%nat least Hmin Hlt) as (e1 & a1 & Hstep1 & Hrun1).
      rewrite Hrun, Hrun1. congruence.
    + rewrite !(run_loop_done g E _ x history h a least) by assumption.
      reflexivity.
  - intros ->. apply run_loop_empty_array; assumption.
  - intros least Hmin Hge. eapply run_loop_done; eassumption.
  - apply Hraise.
Qed.

Lemma run_loop_at_most_one_step_witness :
  let a := [Entry 0 1 0; Entry 1 (-1) (-1)] in
  [a] !! 0%nat = Some a /\
  run_loop chain3 (to_numpy_matrix chain3) 9 0 [] [a] =
  run_loop chain3 (to_numpy_matrix chain3) 1 0 [] [a].
Proof.
  intros a.
  assert (Hx : [a] !! 0%nat = Some a) by reflexivity.
  split; [exact Hx|].
  destruct (run_loop_at_most_one_step chain3 (to_numpy_matrix chain3) 8
              0 [] [a] a Hx) as (Hfuel & _).
  exact Hfuel.
Defined.

(** ** The store during the loop *)

Lemma run_loop_store_grows (g : Graph) (E : matrix) (fuel : nat) :
  forall (x : nat) (history : list nat) (h : store),
    (length h <= length (state_of (run_loop g E fuel x history h)))%nat.
Proof.
  induction fuel as [|fuel IH]; intros x history h; [reflexivity|].
  cbn [run_loop]. msimpl. unfold load.
  destruct (h !! x) as [a|] eqn:Hx; [|reflexivity].
  destruct (np_amin (col2 a)) as [least|e]; [|reflexivity].
  destruct (least <? 1); [|reflexivity].
  pose proof (on_array_length x (iter_Kahn g E) h) as Hlen.
  destruct (on_array x (iter_Kahn g E) h) as [[] h1|e h1|h1];
    cbn [state_of] in Hlen |- *; try lia.
  unfold np_copy, load. msimpl.
  destruct (h1 !! x) as [a1|]; cbn [state_of]; [|lia].
  unfold alloc.
  etransitivity; [|apply IH]. rewrite length_app. cbn. lia.
Qed.

(** X6.  The loop of [run] writes into the live array only: every other
    array that is in the store when the loop starts, such as a copy
    appended to the history, has the same contents when the loop stops,
    however it stops, and no array leaves the store. *)
Theorem run_loop_writes_only_live_array (g : Graph) (E : matrix)
  (fuel : nat) (x : nat) (history : list nat) (h : store) (l : nat) :
  l <> x -> (l < length h)%nat ->
  state_of (run_loop g E fuel x history h) !! l = h !! l /\
  (length h <= length (state_of (run_loop g E fuel x history h)))%nat.
Proof.
  intros Hne Hl. split.
  - apply run_loop_keeps_snapshots; assumption.
  - apply run_loop_store_grows.
Qed.

Lemma run_loop_writes_only_live_array_witness :
  let a :=
    [Entry 0 1 0; Entry 1 (-1) (-1); Entry 1 (-1) (-1); Entry 2 (-1) (-1)] in
  let out := run_loop diamond (to_numpy_matrix diamond) 3 0 [1%nat] [a; a] in
  1%nat <> 0%nat /\ (1 < length [a; a])%nat /\
  state_of out !! 1%nat = Some a /\
  state_of out !! 0%nat =
  Some [Entry 0 1 1; Entry 1 (-1) (-1); Entry 1 (-1) (-1); Entry 2 (-1) (-1)].
Proof.
  intros a out.
  assert (H1 : 1%nat <> 0%nat) by discriminate.
  assert (H2 : (1 < length [a; a])%nat) by (cbn; lia).
  split; [exact H1|]. split; [exact H2|]. split.
  - destruct (run_loop_writes_only_live_array diamond
                (to_numpy_matrix diamond) 3 0 [1%nat] [a; a] 1 H1 H2)
      as [Hkeep _].
    exact Hkeep.
  - vm_compute. reflexivity.
Defined.

(** ** The loop that labels the free nodes *)

Lemma label_free_nodes_inv (l : list nat) :
  forall lab (x : state_vector),
    NoDup l ->
    Forall (fun i => (i < length x)%nat) l ->
    exists x',
      label_free_nodes l lab x = Ok x' /\
      length x' = length x /\
      (forall i, i ∉ l -> x' !! i = x !! i) /\
      (forall k i e, l !! k = Some i -> x !! i = Some e ->
         x' !! i = Some (Entry (remaining e) (lab + Z.of_nat k) 0)).
Proof.
  induction l as [|i0 l IH]; intros lab x Hnd Hrange.
  { exists x. cbn. repeat split; auto. intros k i e Hk. discriminate Hk. }
  apply NoDup_cons in Hnd as [Hi0 Hnd].
  apply Forall_cons in Hrange as [Hlt Hrange].
  destruct (lookup_lt_is_Some_2 x i0 Hlt) as (e0 & He0).
  cbn [label_free_nodes]. rewrite He0.
  set (x1 := alter (set_lifecycle 0) i0 (alter (set_label lab) i0 x)).
  assert (Hlen1 : length x1 = length x)
    by (unfold x1; rewrite !length_alter; reflexivity).
  assert (Hne1 : forall i, i <> i0 -> x1 !! i = x !! i).
  { intros i Hi. unfold x1.
    rewrite !list_lookup_alter_ne by congruence. reflexivity. }
  assert (Heq1 : x1 !! i0 = Some (Entry (remaining e0) lab 0)).
  { unfold x1. rewrite !list_lookup_alter_eq, He0. reflexivity. }
  destruct (IH (lab + 1) x1 Hnd) as (x' & Hrun & Hlen & Hout & Hnth).
  { rewrite Hlen1. exact Hrange. }
  exists x'. split; [exact Hrun|]. split; [congruence|]. split.
  - intros i Hi. apply not_elem_of_cons in Hi as [Hne Hi].
    rewrite Hout by assumption. apply Hne1. exact Hne.
  - intros k i e Hk He. destruct k as [|k]; cbn in Hk.
    + injection Hk as <-. rewrite He0 in He. injection He as <-.
      rewrite Hout by assumption. rewrite Heq1. f_equal. f_equal. lia.
    + assert (Hin : i ∈ l) by (eapply list_elem_of_lookup_2; eassumption).
      assert (Hne : i <> i0) by (intros ->; contradiction).
      rewrite (Hnth k i e Hk); [f_equal; f_equal; lia|].
      rewrite Hne1 by exact Hne. exact He.
Qed.

(** X7.  The loop of lines 73 to 76, run from [label] over a list of
    distinct nodes of the array, ends normally and gives the node at
    position [k] of the list the label [label + k] and the lifecycle
    ready, and keeps its count; the entries of the other nodes and the
    length of the array are unchanged.  A node outside the array stops
    the loop with [IndexError].  (In [initialize_x] the loop stands
    behind the early return and is not reached.) *)
Theorem label_free_nodes_spec (free_nodes : list nat) (label0 : Z)
  (x : state_vector) :
  NoDup free_nodes ->
  Forall (fun i => (i < length x)%nat) free_nodes ->
  (exists x',
      label_free_nodes free_nodes label0 x = Ok x' /\
      length x' = length x /\
      (forall k i, free_nodes !! k = Some i ->
         exists e, x !! i = Some e /\
                   x' !! i =
                   Some (Entry (remaining e) (label0 + Z.of_nat k) 0)) /\
      (forall i, i ∉ free_nodes -> x' !! i = x !! i)) /\
  (forall i, (length x <= i)%nat ->
     label_free_nodes (i :: free_nodes) label0 x = Err IndexError).
Proof.
  intros Hnd Hrange. split.
  - destruct (label_free_nodes_inv free_nodes label0 x Hnd Hrange)
      as (x' & Hrun & Hlen & Hout & Hnth).
    exists x'. split; [exact Hrun|]. split; [exact Hlen|]. split.
    + intros k i Hk.
      assert (Hin : i ∈ free_nodes)
        by (eapply list_elem_of_lookup_2; eassumption).
      rewrite Forall_forall in Hrange. specialize (Hrange i Hin).
      destruct (lookup_lt_is_Some_2 x i Hrange) as (e & He).
      exists e. split; [exact He|]. eapply Hnth; eassumption.
    + exact Hout.
  - intros i Hi. cbn [label_free_nodes].
    rewrite (proj2 (lookup_ge_None x i) Hi). reflexivity.
Qed.

Lemma label_free_nodes_spec_witness :
  let x := [Entry 0 (-1) (-1); Entry 3 (-1) (-1); Entry 0 (-1) (-1)] in
  NoDup [2; 0]%nat /\
  Forall (fun i => (i < length x)%nat) [2; 0]%nat /\
  exists x',
    label_free_nodes [2; 0]%nat 1 x = Ok x' /\
    x' !! 0%nat = Some (Entry 0 2 0) /\
    x' !! 1%nat = Some (Entry 3 (-1) (-1)).
Proof.
  intros x.
  assert (H1 : NoDup [2; 0]%nat) by (apply (bool_decide_unpack _); exact I).
  assert (H2 : Forall (fun i => (i < length x)%nat) [2; 0]%nat)
    by (repeat constructor).
  split; [exact H1|]. split; [exact H2|].
  destruct (label_free_nodes_spec [2; 0]%nat 1 x H1 H2)
    as ((x' & Hrun & _ & Hnth & Hother) & _).
  exists x'. split; [exact Hrun|]. split.
  - destruct (Hnth 1%nat 0%nat eq_refl) as (e & He & Hres).
    injection He as <-. exact Hres.
  - rewrite Hother; [reflexivity|]. apply (bool_decide_unpack _). exact I.
Defined.

(** ** The loop over the neighbours *)


Lemma reach_zero_elem (x : state_vector) (inds : list nat) (k i : nat) :
  reach_zero x inds !! k = Some i -> i ∈ inds.
Proof.
  intros H. apply list_elem_of_lookup_2 in H. apply list_elem_of_In in H.
  unfold reach_zero in H. apply filter_In in H as [H _].
  apply list_elem_of_In. exact H.
Qed.




(** ** [training.py]: one history made ready *)

Lemma insert_last_zeros (m : nat) :
  <[m := 1]> (replicate (S m) 0) = replicate m 0 ++ [1].
Proof.
  induction m as [|m IH]; [reflexivity|].
  change (replicate (S (S m)) 0) with (0 :: replicate (S m) 0).
  cbn [insert list_insert]. cbn [replicate app]. f_equal. exact IH.
Qed.

Lemma set_last_zeros (n : nat) :
  set_last 1 (np_zeros n) =
  match n with
  | O => Err IndexError
  | S m => Ok (replicate m 0 ++ [1])
  end.
Proof.
  destruct n as [|m]; [reflexivity|].
  unfold np_zeros. cbn [replicate set_last].
  change (0 :: replicate m 0) with (replicate (S m) (0 : Z)).
  rewrite length_replicate. cbn [pred]. rewrite insert_last_zeros.
  reflexivity.
Qed.

Lemma np_pad_edge_last {A : Type} (a : list A) (k : nat) (e : A) :
  last a = Some e -> np_pad_edge a k = Ok (a ++ replicate k e).
Proof. intros H. unfold np_pad_edge. rewrite H. reflexivity. Qed.

Lemma last_nonempty {A : Type} (a : list A) :
  a <> [] -> exists e, last a = Some e.
Proof.
  intros H. destruct (last a) as [e|] eqn:Hl; [eauto|].
  apply last_None in Hl. contradiction.
Qed.

(** The two arrays, when the history has [S m] entries and fits. *)
Lemma prepare_history_closed {A : Type} (max_steps : nat) (states : list A)
  (m : nat) (e : A) :
  length states = S m -> last states = Some e -> (S m <= max_steps)%nat ->
  prepare_history max_steps states =
  Ok (states ++ replicate (max_steps - S m) e,
      replicate m 0 ++ replicate (max_steps - m) 1).
Proof.
  intros Hlen Hlast Hfit. unfold prepare_history.
  rewrite Hlen, set_last_zeros. cbn [mbind result_bind].
  destruct (S m <=? max_steps)%nat eqn:Hle;
    [|apply Nat.leb_gt in Hle; lia].
  cbn [negb].
  destruct (S m <? max_steps)%nat eqn:Hlt.
  - apply Nat.ltb_lt in Hlt.
    rewrite (np_pad_edge_last states _ e Hlast). cbn [mbind result_bind mret result_ret].
    unfold np_pad_constant. rewrite length_app, length_replicate. cbn [length].
    rewrite <- app_assoc. do 3 f_equal.
    replace (max_steps - m)%nat with (S (max_steps - (m + 1)))%nat by lia.
    reflexivity.
  - apply Nat.ltb_ge in Hlt. cbn [mret result_ret].
    replace (max_steps - S m)%nat with 0%nat by lia.
    replace (max_steps - m)%nat with 1%nat by lia.
    cbn [replicate]. rewrite app_nil_r. reflexivity.
Qed.

Lemma prepare_history_empty {A : Type} (max_steps : nat) :
  prepare_history max_steps (@nil A) = Err IndexError.
Proof. reflexivity. Qed.

Lemma prepare_history_too_long {A : Type} (max_steps : nat)
  (states : list A) :
  states <> [] -> (max_steps < length states)%nat ->
  prepare_history max_steps states = Err AssertionError.
Proof.
  intros Hne Hbig. unfold prepare_history.
  destruct (length states) as [|m] eqn:Hlen;
    [destruct states; [congruence | discriminate Hlen]|].
  rewrite set_last_zeros. cbn [mbind result_bind].
  destruct (S m <=? max_steps)%nat eqn:Hle;
    [apply Nat.leb_le in Hle; lia | reflexivity].
Qed.

(** X9.  The preparation of a history fails in two cases only: with
    [IndexError], at [termination[-1] = 1], exactly when the history is
    empty, and with [AssertionError] exactly when it is not empty and has
    more than [max_steps] entries. *)
Theorem prepare_history_errors {A : Type} (max_steps : nat)
  (states : list A) :
  (prepare_history max_steps states = Err IndexError <-> states = []) /\
  (prepare_history max_steps states = Err AssertionError <->
   states <> [] /\ (max_steps < length states)%nat) /\
  (forall e, prepare_history max_steps states = Err e ->
             e = IndexError \/ e = AssertionError).
Proof.
  destruct states as [|s0 states0] eqn:Hs.
  { repeat split; try reflexivity; try discriminate; try congruence.
    - intros [H _]. congruence.
    - intros e H. injection H as <-. left; reflexivity. }
  rewrite <- Hs.
  assert (Hne : states <> []) by (rewrite Hs; discriminate).
  assert (Hlen : length states = S (length states0))
    by (rewrite Hs; reflexivity).
  destruct (last_nonempty states Hne) as (e & Hlast).
  destruct (le_lt_dec (length states) max_steps) as [Hfit|Hbig].
  - rewrite (prepare_history_closed max_steps states _ e Hlen Hlast) by lia.
    repeat split; try discriminate; try congruence.
    intros [_ H]. lia.
  - assert (H : prepare_history max_steps states = Err AssertionError)
      by (apply prepare_history_too_long; assumption).
    rewrite H. repeat split; try discriminate; try congruence; auto.
    intros e' He'. injection He' as <-. right; reflexivity.
Qed.

(** X10.  A history that is not empty and has at most [max_steps]
    entries is made ready: both arrays have exactly [max_steps] entries;
    the states are the given ones followed by copies of the last one; the
    termination flag is 0 before the last given state and 1 from there
    on. *)
Theorem prepare_history_pads {A : Type} (max_steps : nat) (states : list A) :
  states <> [] -> (length states <= max_steps)%nat ->
  exists padded termination,
    prepare_history max_steps states = Ok (padded, termination) /\
    length padded = max_steps /\
    length termination = max_steps /\
    (forall i, (i < length states)%nat -> padded !! i = states !! i) /\
    (forall i, (length states <= i < max_steps)%nat ->
               padded !! i = last states) /\
    (forall i, (i < max_steps)%nat ->
               termination !! i =
               Some (if (i <? length states - 1)%nat then 0 else 1)).
Proof.
  intros Hne Hfit.
  destruct (last_nonempty states Hne) as (e & Hlast).
  destruct (length states) as [|m] eqn:Hlen;
    [destruct states; [congruence | discriminate Hlen]|].
  eexists _, _. split; [apply (prepare_history_closed _ _ m e); auto|].
  split; [rewrite length_app, length_replicate; lia|].
  split; [rewrite length_app, !length_replicate; lia|].
  split; [|split].
  - intros i Hi. apply lookup_app_l. lia.
  - intros i Hi. rewrite lookup_app_r by lia. rewrite Hlast.
    apply lookup_replicate_2. lia.
  - intros i Hi. replace (S m - 1)%nat with m by lia.
    destruct (i <? m)%nat eqn:Him.
    + apply Nat.ltb_lt in Him. rewrite lookup_app_l
        by (rewrite length_replicate; lia).
      apply lookup_replicate_2. lia.
    + apply Nat.ltb_ge in Him. rewrite lookup_app_r
        by (rewrite length_replicate; lia).
      apply lookup_replicate_2. rewrite length_replicate. lia.
Qed.

Lemma prepare_history_pads_witness :
  [7; 8]%nat <> [] /\ (length [7; 8]%nat <= 4)%nat /\
  exists padded termination,
    prepare_history 4 [7; 8]%nat = Ok (padded, termination) /\
    padded !! 3%nat = Some 8%nat /\
    termination !! 0%nat = Some 0 /\
    termination !! 1%nat = Some 1.
Proof.
  assert (H1 : [7; 8]%nat <> []) by discriminate.
  assert (H2 : (length [7; 8]%nat <= 4)%nat) by (cbn; lia).
  split; [exact H1|]. split; [exact H2|].
  destruct (prepare_history_pads 4 [7; 8]%nat H1 H2)
    as (padded & termination & Hrun & _ & _ & _ & Hpad & Hterm).
  exists padded, termination. split; [exact Hrun|]. split; [|split].
  - rewrite (Hpad 3%nat) by (cbn; lia). reflexivity.
  - rewrite (Hterm 0%nat) by lia. reflexivity.
  - rewrite (Hterm 1%nat) by lia. reflexivity.
Defined.

Lemma filter_zero_flags (m k : nat) :
  List.filter (Z.eqb 0) (replicate m 0 ++ replicate k 1) = replicate m 0.
Proof.
  induction m as [|m IH]; cbn.
  - induction k as [|k IHk]; cbn; [reflexivity | exact IHk].
  - f_equal. exact IH.
Qed.

(** X11.  The given history can be read back from the two arrays: it is
    made of the first entries of the prepared states, one more than there
    are 0 flags. *)
Theorem prepare_history_recovers {A : Type} (max_steps : nat)
  (states padded : list A) (termination : list Z) :
  prepare_history max_steps states = Ok (padded, termination) ->
  take (S (length (List.filter (Z.eqb 0) termination))) padded = states.
Proof.
  intros Hrun.
  assert (Hne : states <> []).
  { intros ->. rewrite prepare_history_empty in Hrun. discriminate Hrun. }
  assert (Hfit : (length states <= max_steps)%nat).
  { destruct (le_lt_dec (length states) max_steps) as [H|H]; [exact H|].
    rewrite (prepare_history_too_long max_steps states Hne H) in Hrun.
    discriminate Hrun. }
  destruct (last_nonempty states Hne) as (e & Hlast).
  destruct (length states) as [|m] eqn:Hlen;
    [destruct states; [congruence | discriminate Hlen]|].
  rewrite (prepare_history_closed max_steps states m e Hlen Hlast Hfit)
    in Hrun.
  injection Hrun as <- <-.
  rewrite filter_zero_flags, length_replicate, <- Hlen.
  apply take_app_length.
Qed.

Lemma prepare_history_recovers_witness :
  prepare_history 4 [7; 8; 9]%nat =
  Ok ([7; 8; 9; 9]%nat, [0; 0; 1; 1]) /\
  take (S (length (List.filter (Z.eqb 0) [0; 0; 1; 1]))) [7; 8; 9; 9]%nat =
  [7; 8; 9]%nat.
Proof.
  assert (H : prepare_history 4 [7; 8; 9]%nat =
              Ok ([7; 8; 9; 9]%nat, [0; 0; 1; 1])) by reflexivity.
  split; [exact H|].
  exact (prepare_history_recovers 4 _ _ _ H).
Defined.

(** ** [training_2.py]: the targets of one history *)

(** The positions at which two vectors differ. *)
Lemma elem_of_np_where_sub (a b : list Z) (j : nat) :
  j ∈ np_where (zip_with Z.sub a b) <->
  exists u v, a !! j = Some u /\ b !! j = Some v /\ u <> v.
Proof.
  unfold np_where, argwhere. rewrite elem_of_argwhere_from.
  rewrite Nat.sub_0_r. split.
  - intros (_ & d & Hd & Hnz).
    apply lookup_zip_with_Some in Hd as (u & v & -> & Hu & Hv).
    exists u, v. split; [exact Hu|]. split; [exact Hv|].
    apply negb_true_iff, Z.eqb_neq in Hnz. lia.
  - intros (u & v & Hu & Hv & Hne). split; [lia|].
    exists (u - v). split.
    + apply lookup_zip_with_Some. eauto.
    + apply negb_true_iff, Z.eqb_neq. lia.
Qed.

(** X12.  The targets of a history cannot be built when it has fewer
    than two states: the list of arrays is then empty and [np.hstack]
    raises [ValueError].  With two states or more they are built. *)
Theorem transition_targets_errors (states : list (list Z)) :
  (transition_targets states = Err ValueError <->
   (length states <= 1)%nat) /\
  ((2 <= length states)%nat ->
   exists target, transition_targets states = Ok target).
Proof.
  unfold transition_targets. cbn [app].
  destruct (length states - 1)%nat as [|m] eqn:Hm.
  - cbn. split; [split; [lia | reflexivity] | lia].
  - cbn [seq map np_hstack]. split; [split; [discriminate | lia]|].
    intros _. eauto.
Qed.

Lemma transition_targets_ok (states : list (list Z)) :
  (2 <= length states)%nat ->
  transition_targets states =
  Ok (concat (map (fun i => np_where (zip_with Z.sub (nth i states [])
                                        (nth (i - 1) states [])))
                (seq 1 (length states - 1)))).
Proof.
  intros Hlen. unfold transition_targets. cbn [app].
  destruct (length states - 1)%nat as [|m] eqn:Hm; [lia | reflexivity].
Qed.

(** X13.  For a history of two states or more, a position occurs among
    the targets exactly when some step changes the state at that
    position: there is a state, not the first, whose entry there differs
    from the entry of the state before. *)
Theorem transition_targets_changes (states : list (list Z)) :
  (2 <= length states)%nat ->
  exists target,
    transition_targets states = Ok target /\
    forall j,
      j ∈ target <->
      exists i before after u v,
        (1 <= i)%nat /\
        states !! (i - 1)%nat = Some before /\ states !! i = Some after /\
        after !! j = Some u /\ before !! j = Some v /\ u <> v.
Proof.
  intros Hlen. eexists. split; [apply transition_targets_ok; exact Hlen|].
  intros j. rewrite list_elem_of_In, in_concat. split.
  - intros (d & Hd & Hj). apply in_map_iff in Hd as (i & <- & Hi).
    apply in_seq in Hi. apply list_elem_of_In in Hj.
    apply elem_of_np_where_sub in Hj as (u & v & Hu & Hv & Hne).
    destruct (lookup_lt_is_Some_2 states i) as (after & Hafter); [lia|].
    destruct (lookup_lt_is_Some_2 states (i - 1)) as (before & Hbefore);
      [lia|].
    rewrite (nth_lookup_Some _ _ _ _ Hafter) in Hu.
    rewrite (nth_lookup_Some _ _ _ _ Hbefore) in Hv.
    exists i, before, after, u, v. repeat split; auto. lia.
  - intros (i & before & after & u & v & Hi & Hbefore & Hafter & Hu & Hv & Hne).
    exists (np_where (zip_with Z.sub (nth i states [])
                        (nth (i - 1) states []))).
    split.
    + apply in_map_iff. exists i. split; [reflexivity|].
      apply in_seq. apply lookup_lt_Some in Hafter. lia.
    + apply list_elem_of_In, elem_of_np_where_sub.
      rewrite (nth_lookup_Some _ _ _ _ Hafter).
      rewrite (nth_lookup_Some _ _ _ _ Hbefore).
      exists u, v. auto.
Qed.

Lemma transition_targets_changes_witness :
  let states : list (list Z) :=
    [[0; 0; 0]; [0; 1; 0]; [0; 1; 0]; [1; 1; 0]] in
  (2 <= length states)%nat /\
  transition_targets states = Ok [1; 0]%nat /\
  exists target,
    transition_targets states = Ok target /\ 2%nat ∉ target.
Proof.
  intros states.
  assert (H : (2 <= length states)%nat) by (cbn; lia).
  split; [exact H|]. split; [reflexivity|].
  destruct (transition_targets_changes states H) as (target & Hrun & Hiff).
  exists target. split; [exact Hrun|].
  intros Hin. apply Hiff in Hin
    as (i & before & after & u & v & Hi & Hb & Ha & Hu & Hv & Hne).
  destruct i as [|[|[|[|i]]]]; cbn in Hb, Ha; try lia; try discriminate Ha;
    injection Hb as <-; injection Ha as <-; cbn in Hu, Hv; congruence.
Defined.

(** ** The lists of nodes that the two functions sort *)

Lemma insert_by_perm (key : nat -> Q) (a : nat) (l : list nat) :
  insert_by key a l ≡ₚ a :: l.
Proof.
  induction l as [|b l IH]; cbn [insert_by]; [reflexivity|].
  destruct (Qle_bool (key a) (key b)); [reflexivity|].
  rewrite IH. apply perm_swap.
Qed.

Lemma sorted_perm (key : nat -> Q) (l : list nat) : sorted key l ≡ₚ l.
Proof.
  induction l as [|a l IH]; cbn; [reflexivity|].
  fold (sorted key l). rewrite insert_by_perm, IH. reflexivity.
Qed.

Lemma insert_by_hd (key : nat -> Q) (a c : nat) (l : list nat) :
  priority_order key c a ->
  HdRel (priority_order key) c l ->
  HdRel (priority_order key) c (insert_by key a l).
Proof.
  intros Hca Hl. destruct l as [|b l]; cbn [insert_by].
  - constructor. exact Hca.
  - destruct (Qle_bool (key a) (key b)); constructor;
      [exact Hca | inversion Hl; assumption].
Qed.

Lemma insert_by_sorted (key : nat -> Q) (a : nat) (l : list nat) :
  Forall (fun b => (a < b)%nat) l ->
  Sorted (priority_order key) l ->
  Sorted (priority_order key) (insert_by key a l).
Proof.
  induction l as [|b l IH]; intros Hlt Hs; cbn [insert_by].
  - repeat constructor.
  - apply Forall_cons in Hlt as [Hab Hlt].
    apply Sorted_inv in Hs as [Hs Hhd].
    destruct (Qle_bool (key a) (key b)) eqn:Hle.
    + constructor; [constructor; assumption|]. constructor.
      apply Qle_bool_iff in Hle.
      destruct (Qle_lt_or_eq _ _ Hle) as [H|H];
        [left; exact H | right; split; assumption].
    + constructor; [apply IH; assumption|].
      apply insert_by_hd; [|exact Hhd].
      left. apply Qnot_le_lt. intros H. apply Qle_bool_iff in H.
      congruence.
Qed.

Lemma sorted_sorted (key : nat -> Q) (l : list nat) :
  StronglySorted lt l -> Sorted (priority_order key) (sorted key l).
Proof.
  induction 1 as [|a l Hl IH Ha]; cbn; [constructor|].
  fold (sorted key l). apply insert_by_sorted; [|exact IH].
  rewrite sorted_perm. exact Ha.
Qed.

Lemma argwhere_from_ascending {A : Type} (p : A -> bool) (l : list A) :
  forall s, StronglySorted lt (argwhere_from p s l).
Proof.
  induction l as [|a l IH]; intros s; cbn [argwhere_from]; [constructor|].
  destruct (p a); [|apply IH].
  constructor; [apply IH|].
  apply Forall_forall. intros i Hi.
  apply elem_of_argwhere_from in Hi as [Hi _]. lia.
Qed.

Lemma ascending_NoDup (l : list nat) : StronglySorted lt l -> NoDup l.
Proof.
  induction 1 as [|a l Hl IH Ha]; constructor; [|exact IH].
  intros Hin. rewrite Forall_forall in Ha. specialize (Ha a Hin). lia.
Qed.

(** What [sorted(..., key=priority)] makes of the nodes that
    [np.argwhere] finds. *)
Lemma sorted_argwhere {A : Type} (key : nat -> Q) (p : A -> bool)
  (l : list A) :
  (forall i, i ∈ sorted key (argwhere p l) <->
             exists a, l !! i = Some a /\ p a = true) /\
  NoDup (sorted key (argwhere p l)) /\
  Sorted (priority_order key) (sorted key (argwhere p l)).
Proof.
  split; [|split].
  - intros i. rewrite sorted_perm. unfold argwhere.
    rewrite elem_of_argwhere_from, Nat.sub_0_r. split.
    + intros [_ H]. exact H.
    + intros H. split; [lia | exact H].
  - rewrite sorted_perm. apply ascending_NoDup, argwhere_from_ascending.
  - apply sorted_sorted, argwhere_from_ascending.
Qed.

(** X14.  The list [free_nodes] that [initialize_x] builds at lines 66
    and 67 holds exactly the nodes whose count is 0, each once, in
    ascending priority, nodes of equal priority in ascending order.  (The
    list is then reversed in place and, the early return being taken, not
    used.) *)
Theorem free_nodes_sorted (g : Graph) :
  let E := to_numpy_matrix g in
  let x := degree_array E (number_of_nodes g) in
  let free_nodes := sorted (priority g) (argwhere (Z.eqb 0) (col0 x)) in
  (forall i, i ∈ free_nodes <->
             (i < number_of_nodes g)%nat /\ get_degree E i = 0) /\
  NoDup free_nodes /\
  Sorted (priority_order (priority g)) free_nodes.
Proof.
  intros E x free_nodes.
  destruct (sorted_argwhere (priority g) (Z.eqb 0) (col0 x))
    as (Hmem & Hnd & Hs).
  split; [|split; assumption].
  intros i. fold free_nodes in Hmem. rewrite Hmem.
  unfold col0, x. rewrite lookup_map. split.
  - intros (a & Ha & Hp).
    destruct (degree_array E (number_of_nodes g) !! i) as [e|] eqn:He;
      [|discriminate Ha].
    assert (Hi : (i < number_of_nodes g)%nat).
    { apply lookup_lt_Some in He. unfold degree_array in He.
      rewrite length_map, length_seq in He. exact He. }
    rewrite degree_array_lookup in He by exact Hi.
    injection He as <-. cbn in Ha. injection Ha as <-.
    apply Z.eqb_eq in Hp. split; [exact Hi | congruence].
  - intros [Hi Hz]. rewrite degree_array_lookup by exact Hi.
    exists (get_degree E i). split; [reflexivity|].
    apply Z.eqb_eq. congruence.
Qed.

(** X15.  The list [neigh] that [iter_Kahn] builds at lines 111 and 112
    from the row of the chosen node, on the graph's own matrix, is built
    without a [KeyError] and holds exactly the nodes whose entry
    in that row equals 1, each once, in ascending priority, nodes of
    equal priority in ascending order.  An entry other than 1, such as a
    weight 2 that [initialize_x] counts as two constraints, makes no
    neighbour. *)
Theorem neigh_sorted (g : Graph) (k : nat) :
  (k < number_of_nodes g)%nat ->
  exists r,
    to_numpy_matrix g !! k = Some r /\
    sorted_by_priority g (argwhere (Z.eqb 1) r) =
    Ok (sorted (priority g) (argwhere (Z.eqb 1) r)) /\
    (forall j, j ∈ sorted (priority g) (argwhere (Z.eqb 1) r) <->
               (j < number_of_nodes g)%nat /\ weight g k j = 1) /\
    NoDup (sorted (priority g) (argwhere (Z.eqb 1) r)) /\
    Sorted (priority_order (priority g))
      (sorted (priority g) (argwhere (Z.eqb 1) r)).
Proof.
  intros Hk.
  exists (map (fun j => weight g k j) (seq 0 (number_of_nodes g))).
  assert (Hrow : to_numpy_matrix g !! k =
                 Some (map (fun j => weight g k j)
                         (seq 0 (number_of_nodes g)))).
  { unfold to_numpy_matrix. rewrite lookup_map, lookup_seq_lt by exact Hk.
    reflexivity. }
  split; [exact Hrow|].
  split.
  { unfold sorted_by_priority.
    rewrite (to_numpy_matrix_row_nodes g k _ Hrow). reflexivity. }
  destruct (sorted_argwhere (priority g) (Z.eqb 1)
              (map (fun j => weight g k j) (seq 0 (number_of_nodes g))))
    as (Hmem & Hnd & Hs).
  split; [|split; assumption].
  intros j. rewrite Hmem, lookup_map. split.
  - intros (a & Ha & Hp).
    destruct (seq 0 (number_of_nodes g) !! j) as [j'|] eqn:Hj;
      [|discriminate Ha].
    apply lookup_seq in Hj as [-> Hj]. cbn in Ha. injection Ha as <-.
    apply Z.eqb_eq in Hp. split; [exact Hj | congruence].
  - intros [Hj Hw]. rewrite lookup_seq_lt by exact Hj.
    exists (weight g k j). split; [reflexivity|].
    apply Z.eqb_eq. congruence.
Qed.

Lemma neigh_sorted_witness :
  (0 < number_of_nodes diamond)%nat /\
  exists r,
    to_numpy_matrix diamond !! 0%nat = Some r /\
    sorted (priority diamond) (argwhere (Z.eqb 1) r) = [1; 2]%nat /\
    NoDup (sorted (priority diamond) (argwhere (Z.eqb 1) r)).
Proof.
  assert (H : (0 < number_of_nodes diamond)%nat) by (cbn; lia).
  split; [exact H|].
  destruct (neigh_sorted diamond 0 H) as (r & Hr & _ & _ & Hnd & _).
  exists r. split; [exact Hr|]. split; [|exact Hnd].
  cbn in Hr. injection Hr as <-. vm_compute. reflexivity.
Defined.
